(** * que_times: the sampling / diff / persistence pipeline of the PvP tracker

    A shallow embedding of [db.ts] (schema, [getOrCreateCharacter],
    [getLatestSnapshot], [saveSnapshot], [recordRatingChange],
    [getRatingChanges], [processSnapshot]), of [auth.ts] ([getAccessToken])
    and of [tracker.ts] ([fetchPvPBracket], [pollOnce]).

    The SQLite tables are lists of rows in rowid order.  Every function of
    the program is a computation in a small monad that threads the process
    state (database handle, console, clock) and may throw; as in JavaScript,
    what was written before an exception stays written.  The [number]
    fields hold the integers of the API's counters and of the [INTEGER]
    columns, and are kept as [Z]. *)

From Stdlib Require Import ZArith List String Ascii Bool Lia.
From Stdlib Require Import Sorting.Sorted Sorting.Permutation.
Import ListNotations.

Local Open Scope string_scope.
Local Open Scope Z_scope.
Local Open Scope list_scope.

(* ===================================================================== *)
(** * Part I.  The program                                                *)
(* ===================================================================== *)

(** ** Values *)

(** [timestamp DATETIME DEFAULT CURRENT_TIMESTAMP]: SQLite stores the text
    [YYYY-MM-DD HH:MM:SS] (UTC, one-second resolution), whose text order is
    the chronological order.  We keep the instant as a count of seconds. *)
Definition timestamp := Z.

(** [String.prototype.toLowerCase].  The registry only needs that it is a
    function on strings, so it is an interface; [AsciiFolding] below is the
    instance used to run examples. *)
Class CaseFolding := { toLowerCase : string -> string }.

Definition ascii_lower (c : ascii) : ascii :=
  let n := nat_of_ascii c in
  if ((65 <=? n) && (n <=? 90))%nat then ascii_of_nat (n + 32) else c.

Fixpoint ascii_toLowerCase (s : string) : string :=
  match s with
  | EmptyString => EmptyString
  | String c s' => String (ascii_lower c) (ascii_toLowerCase s')
  end.

#[export] Instance AsciiFolding : CaseFolding :=
  {| toLowerCase := ascii_toLowerCase |}.

(** [interface PvPBracketData] *)
Record MatchStatistics := {
  played : Z;
  won : Z;
  lost : Z
}.

Record PvPBracketData := {
  rating : Z;
  season_match_statistics : MatchStatistics;
  weekly_match_statistics : MatchStatistics
}.

(** [interface RatingChange]: the columns [getRatingChanges] selects. *)
Record RatingChange := {
  rc_timestamp : timestamp;
  rc_bracket : string;
  old_rating : Z;
  new_rating : Z;
  rating_change : Z;
  games_played : Z;
  games_won : Z;
  games_lost : Z
}.

(** ** Schema *)

(** [CREATE TABLE characters] *)
Record CharacterRow := {
  char_id : Z;
  char_name : string;
  char_realm_slug : string;
  char_region : string
}.

(** [CREATE TABLE pvp_snapshots] *)
Record SnapshotRow := {
  snap_id : Z;
  snap_character_id : Z;
  snap_bracket : string;
  snap_timestamp : timestamp;
  snap_rating : Z;
  season_played : Z;
  season_won : Z;
  season_lost : Z;
  weekly_played : Z;
  weekly_won : Z;
  weekly_lost : Z
}.

(** [CREATE TABLE rating_changes]: the selected columns plus the key and the
    owner. *)
Record RatingChangeRow := {
  change_id : Z;
  change_character_id : Z;
  change_columns : RatingChange
}.

(** The open database.  [foreign_keys] is the connection's
    [PRAGMA foreign_keys]: the schema declares
    [FOREIGN KEY (character_id) REFERENCES characters(id)] on both child
    tables, and the engine enforces it exactly when the pragma is on. *)
Record Db := {
  foreign_keys : bool;
  characters : list CharacterRow;
  pvp_snapshots : list SnapshotRow;
  rating_changes : list RatingChangeRow
}.

Definition empty_db (fk : bool) : Db :=
  {| foreign_keys := fk; characters := []; pvp_snapshots := [];
     rating_changes := [] |}.

(** ** The SQL statements, as functions on tables *)

Module Sql.

(** A fresh rowid is one more than the largest one in the table (rows are
    never deleted, so [AUTOINCREMENT] and plain [INTEGER PRIMARY KEY] agree). *)
Definition next_rowid (ids : list Z) : Z := 1 + fold_right Z.max 0 ids.

(** [ORDER BY]: SQLite sorts the rows that pass [WHERE] on the [ORDER BY]
    terms alone, and rows whose terms compare equal come out in the order
    they were scanned (with [LIMIT], the sorter key is the terms followed by
    the arrival number, and a row that ties with the best one so far does
    not replace it).  The statements of this program name no second sort
    term; the rows of one character and bracket are scanned in rowid order,
    through the table or through the [(character_id, bracket)] index alike.
    [before a b] tells that [a] may stand before [b]. *)
Fixpoint insert_by {A} (before : A -> A -> bool) (x : A) (l : list A) : list A :=
  match l with
  | [] => [x]
  | y :: l' => if before x y then x :: y :: l' else y :: insert_by before x l'
  end.

Definition order_by {A} (before : A -> A -> bool) (l : list A) : list A :=
  fold_right (insert_by before) [] l.

(** [LIMIT 1] read with [stmt.get]: the first row, or [undefined]. *)
Definition get {A} (rows : list A) : option A := hd_error rows.

Definition asc {A} (key : A -> Z) (a b : A) : bool := key a <=? key b.
Definition desc {A} (key : A -> Z) (a b : A) : bool := key b <=? key a.

(** The order a sorter leaves its rows in. *)
Definition sorted_by {A} (before : A -> A -> bool) (l : list A) : Prop :=
  StronglySorted (fun a b => before a b = true) l.

End Sql.

Definition character_known (d : Db) (characterId : Z) : bool :=
  existsb (fun c => char_id c =? characterId) (characters d).

(** The child-table inserts go through when the pragma is off or the parent
    row exists. *)
Definition fk_holds (d : Db) (characterId : Z) : bool :=
  negb (foreign_keys d) || character_known d characterId.

Definition same_character (name realm_slug region : string) (c : CharacterRow) : bool :=
  (char_name c =? name)%string && (char_realm_slug c =? realm_slug)%string
  && (char_region c =? region)%string.

(** [INSERT OR IGNORE INTO characters (name, realm_slug, region) VALUES (?,?,?)]:
    the [UNIQUE(name, realm_slug, region)] conflict is ignored. *)
Definition insert_or_ignore_character (name realm_slug region : string) (d : Db) : Db :=
  if existsb (same_character name realm_slug region) (characters d) then d
  else
    {| foreign_keys := foreign_keys d;
       characters := characters d ++
         [{| char_id := Sql.next_rowid (map char_id (characters d));
             char_name := name; char_realm_slug := realm_slug;
             char_region := region |}];
       pvp_snapshots := pvp_snapshots d;
       rating_changes := rating_changes d |}.

(** [SELECT id FROM characters WHERE name = ? AND realm_slug = ? AND region = ?] *)
Definition select_character (name realm_slug region : string) (d : Db) : list CharacterRow :=
  filter (same_character name realm_slug region) (characters d).

Definition snapshot_of (characterId : Z) (bracket : string) (s : SnapshotRow) : bool :=
  (snap_character_id s =? characterId) && (snap_bracket s =? bracket)%string.

(** [SELECT * FROM pvp_snapshots WHERE character_id = ? AND bracket = ?
     ORDER BY timestamp DESC LIMIT 1] *)
Definition select_latest_snapshot (characterId : Z) (bracket : string) (d : Db)
  : list SnapshotRow :=
  firstn 1 (Sql.order_by (Sql.desc snap_timestamp)
              (filter (snapshot_of characterId bracket) (pvp_snapshots d))).

(** [INSERT INTO pvp_snapshots (...) VALUES (?, ?, ?, ?, ?, ?, ?, ?, ?)] at
    the instant [now]. *)
Definition insert_snapshot (now : timestamp) (characterId : Z) (bracket : string)
  (v_rating v_season_played v_season_won v_season_lost
   v_weekly_played v_weekly_won v_weekly_lost : Z) (d : Db) : Db :=
  {| foreign_keys := foreign_keys d;
     characters := characters d;
     pvp_snapshots := pvp_snapshots d ++
       [{| snap_id := Sql.next_rowid (map snap_id (pvp_snapshots d));
           snap_character_id := characterId;
           snap_bracket := bracket;
           snap_timestamp := now;
           snap_rating := v_rating;
           season_played := v_season_played;
           season_won := v_season_won;
           season_lost := v_season_lost;
           weekly_played := v_weekly_played;
           weekly_won := v_weekly_won;
           weekly_lost := v_weekly_lost |}];
     rating_changes := rating_changes d |}.

(** [INSERT INTO rating_changes (...) VALUES (?, ?, ?, ?, ?, ?, ?, ?)] at the
    instant [now]. *)
Definition insert_rating_change (now : timestamp) (characterId : Z) (bracket : string)
  (oldRating newRating ratingChange gamesPlayed gamesWon gamesLost : Z) (d : Db) : Db :=
  {| foreign_keys := foreign_keys d;
     characters := characters d;
     pvp_snapshots := pvp_snapshots d;
     rating_changes := rating_changes d ++
       [{| change_id := Sql.next_rowid (map change_id (rating_changes d));
           change_character_id := characterId;
           change_columns :=
             {| rc_timestamp := now; rc_bracket := bracket;
                old_rating := oldRating; new_rating := newRating;
                rating_change := ratingChange; games_played := gamesPlayed;
                games_won := gamesWon; games_lost := gamesLost |} |}] |}.

(** The [WHERE] clause [getRatingChanges] builds: [character_id = ?], and
    [AND bracket = ?] when [if (bracket)] passes.  An absent bracket and the
    empty string are both falsy. *)
Definition bracket_given (bracket : option string) : option string :=
  match bracket with
  | Some b => if (b =? "")%string then None else Some b
  | None => None
  end.

Definition change_matches (characterId : Z) (bracket : option string)
  (r : RatingChangeRow) : bool :=
  (change_character_id r =? characterId)
  && match bracket_given bracket with
     | Some b => (rc_bracket (change_columns r) =? b)%string
     | None => true
     end.

(** [SELECT timestamp, bracket, ... FROM rating_changes WHERE ...
     ORDER BY timestamp ASC].  Rows of one bracket reach the sorter in rowid
    order under every access path; for rows of different brackets with
    equal timestamps the order of a table scan is taken. *)
Definition select_rating_changes (characterId : Z) (bracket : option string) (d : Db)
  : list RatingChange :=
  map change_columns
    (Sql.order_by (Sql.asc (fun r => rc_timestamp (change_columns r)))
       (filter (change_matches characterId bracket) (rating_changes d))).

(** ** The process state and the monad of the program *)

Inductive Exn :=
| SqliteError (message : string)          (* thrown by better-sqlite3 *)
| TypeError (message : string)            (* property read on [undefined] *)
| SyntaxError                             (* [response.json()] rejects *)
| FetchRejected                           (* [fetch] rejects: no response *)
| Error (message : string) (status : Z).  (* [throw new Error(...)] *)

(** The lines written by [console.log] and [console.error]. *)
Inductive LogLine :=
| LogFirstSnapshot (bracket : string)
| LogRatingChangeDetected (oldRating newRating ratingChange : Z)
| LogGames (gamesPlayedDiff gamesWonDiff gamesLostDiff : Z)
| LogPolling
| LogBracket (bracket : string) (v_rating v_played : Z)
| LogChangeDetected (ratingChange : option Z)
| LogNoData (bracket : string)
| LogErrorDuringPoll (error : Exn).

(** [clock] is the sequence of readings [CURRENT_TIMESTAMP] will give, and
    [ticks] the number of readings taken so far. *)
Record World := {
  db : Db;
  console : list LogLine;
  clock : nat -> timestamp;
  ticks : nat
}.

Definition initial_world (fk : bool) (clk : nat -> timestamp) : World :=
  {| db := empty_db fk; console := []; clock := clk; ticks := 0 |}.

Inductive Completion (A : Type) :=
| Normal (value : A)
| Throw (error : Exn).

Arguments Normal {A} value.
Arguments Throw {A} error.

Definition M (A : Type) := World -> Completion A * World.

Definition ret {A} (a : A) : M A := fun w => (Normal a, w).

Definition bind {A B} (c : M A) (k : A -> M B) : M B :=
  fun w =>
    match c w with
    | (Normal a, w') => k a w'
    | (Throw e, w') => (Throw e, w')
    end.

Definition throw {A} (e : Exn) : M A := fun w => (Throw e, w).

(** [try { c } catch (error) { handler(error) }] *)
Definition try_catch {A} (c : M A) (handler : Exn -> M A) : M A :=
  fun w =>
    match c w with
    | (Normal a, w') => (Normal a, w')
    | (Throw e, w') => handler e w'
    end.

Notation "x <- c ;; k" := (bind c (fun x => k))
  (at level 61, c at next level, right associativity).
Notation "c ;; k" := (bind c (fun _ => k))
  (at level 61, right associativity).

(** [for (const x of xs) { body(x) }] *)
Fixpoint for_of {A} (xs : list A) (body : A -> M unit) : M unit :=
  match xs with
  | [] => ret tt
  | x :: xs' => body x ;; for_of xs' body
  end.

Definition console_log (line : LogLine) : M unit :=
  fun w =>
    (Normal tt,
     {| db := db w; console := console w ++ [line]; clock := clock w;
        ticks := ticks w |}).

Definition CURRENT_TIMESTAMP : M timestamp :=
  fun w =>
    (Normal (clock w (ticks w)),
     {| db := db w; console := console w; clock := clock w;
        ticks := S (ticks w) |}).

(** [stmt.get(...)] / [stmt.all(...)] of a [SELECT]. *)
Definition query {A} (q : Db -> A) : M A := fun w => (Normal (q (db w)), w).

(** [stmt.run(...)] of a statement that cannot violate a constraint. *)
Definition run (f : Db -> Db) : M unit :=
  fun w =>
    (Normal tt,
     {| db := f (db w); console := console w; clock := clock w;
        ticks := ticks w |}).

(** [stmt.run(...)] of an [INSERT] into a table that references
    [characters(id)]. *)
Definition run_child_insert (characterId : Z) (f : Db -> Db) : M unit :=
  fun w =>
    if fk_holds (db w) characterId then run f w
    else (Throw (SqliteError "FOREIGN KEY constraint failed"), w).

(** ** db.ts *)

Definition getOrCreateCharacter `{CaseFolding} (name realmSlug region : string) : M Z :=
  run (insert_or_ignore_character
         (toLowerCase name) (toLowerCase realmSlug) (toLowerCase region)) ;;
  row <- query (fun d => Sql.get (select_character
         (toLowerCase name) (toLowerCase realmSlug) (toLowerCase region) d)) ;;
  match row with
  | Some r => ret (char_id r)
  | None => throw (TypeError "Cannot read properties of undefined (reading 'id')")
  end.

Definition getLatestSnapshot (characterId : Z) (bracket : string)
  : M (option SnapshotRow) :=
  query (fun d => Sql.get (select_latest_snapshot characterId bracket d)).

Definition saveSnapshot (characterId : Z) (bracket : string) (data : PvPBracketData)
  : M unit :=
  now <- CURRENT_TIMESTAMP ;;
  run_child_insert characterId
    (insert_snapshot now
       characterId
       bracket
       (rating data)
       (played (season_match_statistics data))
       (won (season_match_statistics data))
       (lost (season_match_statistics data))
       (played (weekly_match_statistics data))
       (won (weekly_match_statistics data))
       (lost (weekly_match_statistics data))).

Definition recordRatingChange (characterId : Z) (bracket : string)
  (oldRating newRating gamesPlayed gamesWon gamesLost : Z) : M unit :=
  now <- CURRENT_TIMESTAMP ;;
  run_child_insert characterId
    (insert_rating_change now
       characterId
       bracket
       oldRating
       newRating
       (newRating - oldRating)
       gamesPlayed
       gamesWon
       gamesLost).

Definition getRatingChanges (characterId : Z) (bracket : option string)
  : M (list RatingChange) :=
  query (select_rating_changes characterId bracket).

(** [{ changed: boolean; ratingChange?: number }] *)
Record ProcessResult := {
  changed : bool;
  ratingChange : option Z
}.

Definition processSnapshot (characterId : Z) (bracket : string)
  (currentData : PvPBracketData) : M ProcessResult :=
  lastSnapshot <- getLatestSnapshot characterId bracket ;;
  (* Always save the current snapshot *)
  saveSnapshot characterId bracket currentData ;;
  match lastSnapshot with
  | None =>
      console_log (LogFirstSnapshot bracket) ;;
      ret {| changed := false; ratingChange := None |}
  | Some lastSnapshot =>
      (* Check if games were played (season_played increased) *)
      let gamesPlayedDiff :=
        played (season_match_statistics currentData) - season_played lastSnapshot in
      if 0 <? gamesPlayedDiff then
        let gamesWonDiff :=
          won (season_match_statistics currentData) - season_won lastSnapshot in
        let gamesLostDiff :=
          lost (season_match_statistics currentData) - season_lost lastSnapshot in
        let v_ratingChange := rating currentData - snap_rating lastSnapshot in
        recordRatingChange characterId bracket
          (snap_rating lastSnapshot)
          (rating currentData)
          gamesPlayedDiff
          gamesWonDiff
          gamesLostDiff ;;
        console_log (LogRatingChangeDetected (snap_rating lastSnapshot)
                       (rating currentData) v_ratingChange) ;;
        console_log (LogGames gamesPlayedDiff gamesWonDiff gamesLostDiff) ;;
        ret {| changed := true; ratingChange := Some v_ratingChange |}
      else
        ret {| changed := false; ratingChange := None |}
  end.

(** ** auth.ts and tracker.ts *)

(** What one [fetch] call meets: no response at all, or a response with its
    [ok] flag, its status and what [response.json()] gives ([None] when the
    body does not parse). *)
Inductive Fetched (A : Type) :=
| Rejected
| Response (ok : bool) (status : Z) (json : option A).

Arguments Rejected {A}.
Arguments Response {A} ok status json.

(** The remote API during one cycle: the token endpoint, and the bracket
    endpoint as a function of the bearer token and the bracket. *)
Record Network := {
  token_endpoint : Fetched string;
  bracket_endpoint : string -> string -> Fetched PvPBracketData
}.

Record Config := {
  characterName : string;
  realmSlug : string;
  region : string;
  brackets : list string;
  pollIntervalMs : Z
}.

Definition CONFIG : Config :=
  {| characterName := "bigbrainwiz";
     realmSlug := "malganis";
     region := "us";
     brackets := ["shuffle-priest-shadow"; "blitz-priest-shadow"];
     pollIntervalMs := 5 * 60 * 1000 |}.

Definition getAccessToken (net : Network) : M string :=
  match token_endpoint net with
  | Rejected => throw FetchRejected
  | Response ok status json =>
      if negb ok then throw (Error "Failed to get token" status)
      else match json with
           | Some access_token => ret access_token
           | None => throw SyntaxError
           end
  end.

Definition fetchPvPBracket (net : Network) (token bracket : string)
  : M (option PvPBracketData) :=
  match bracket_endpoint net token bracket with
  | Rejected => throw FetchRejected
  | Response ok status json =>
      if negb ok then
        if status =? 404 then ret None
        else throw (Error ("Failed to fetch bracket " ++ bracket)%string status)
      else match json with
           | Some data => ret (Some data)
           | None => throw SyntaxError
           end
  end.

(** The body of the [for] loop of [pollOnce]. *)
Definition pollBracket (net : Network) (token : string) (characterId : Z)
  (bracket : string) : M unit :=
  data <- fetchPvPBracket net token bracket ;;
  match data with
  | Some data =>
      console_log (LogBracket bracket (rating data)
                     (played (season_match_statistics data))) ;;
      result <- processSnapshot characterId bracket data ;;
      if changed result then console_log (LogChangeDetected (ratingChange result))
      else ret tt
  | None => console_log (LogNoData bracket)
  end.

(** [pollOnce], with the configuration it reads made explicit. *)
Definition pollOnceWith `{CaseFolding} (cfg : Config) (net : Network) : M unit :=
  console_log LogPolling ;;
  try_catch
    (token <- getAccessToken net ;;
     characterId <- getOrCreateCharacter (characterName cfg) (realmSlug cfg) (region cfg) ;;
     for_of (brackets cfg) (pollBracket net token characterId))
    (fun error => console_log (LogErrorDuringPoll error)).

Definition pollOnce `{CaseFolding} (net : Network) : M unit := pollOnceWith CONFIG net.

(** ** Vocabulary of the statements *)

(** The row [saveSnapshot] appends in world [w]. *)
Definition saved_snapshot (w : World) (characterId : Z) (bracket : string)
  (data : PvPBracketData) : SnapshotRow :=
  {| snap_id := Sql.next_rowid (map snap_id (pvp_snapshots (db w)));
     snap_character_id := characterId;
     snap_bracket := bracket;
     snap_timestamp := clock w (ticks w);
     snap_rating := rating data;
     season_played := played (season_match_statistics data);
     season_won := won (season_match_statistics data);
     season_lost := lost (season_match_statistics data);
     weekly_played := played (weekly_match_statistics data);
     weekly_won := won (weekly_match_statistics data);
     weekly_lost := lost (weekly_match_statistics data) |}.

(** The ledger row that the difference between the stored snapshot
    [previous] and the fetched [current] amounts to, stamped [now]. *)
Definition delta_row (rowid : Z) (now : timestamp) (characterId : Z) (bracket : string)
  (previous : SnapshotRow) (current : PvPBracketData) : RatingChangeRow :=
  {| change_id := rowid;
     change_character_id := characterId;
     change_columns :=
       {| rc_timestamp := now;
          rc_bracket := bracket;
          old_rating := snap_rating previous;
          new_rating := rating current;
          rating_change := rating current - snap_rating previous;
          games_played :=
            played (season_match_statistics current) - season_played previous;
          games_won := won (season_match_statistics current) - season_won previous;
          games_lost :=
            lost (season_match_statistics current) - season_lost previous |} |}.

(** The invariant of the ledger. *)
Definition change_ok (r : RatingChangeRow) : Prop :=
  0 < games_played (change_columns r)
  /\ rating_change (change_columns r)
     = new_rating (change_columns r) - old_rating (change_columns r).

(** The states the program can be in: a fresh database, then any sequence
    of calls of the writers the tracker uses, whether they return or throw. *)
Inductive reachable `{CaseFolding} : World -> Prop :=
| reach_initial : forall fk clk, reachable (initial_world fk clk)
| reach_getOrCreateCharacter : forall w name realm_slug v_region,
    reachable w ->
    reachable (snd (getOrCreateCharacter name realm_slug v_region w))
| reach_processSnapshot : forall w characterId bracket data,
    reachable w ->
    reachable (snd (processSnapshot characterId bracket data w))
| reach_pollOnce : forall w cfg net,
    reachable w ->
    reachable (snd (pollOnceWith cfg net w)).

(** A computation keeps a property of the database, whether it returns or
    throws. *)
Definition preserves {A} (P : Db -> Prop) (c : M A) : Prop :=
  forall w, P (db w) -> P (db (snd (c w))).

Definition ledger_ok (d : Db) : Prop := Forall change_ok (rating_changes d).

(** Two spellings that [toLowerCase] sends to the same string. *)
Definition case_variant `{CaseFolding} (a b : string) : Prop :=
  toLowerCase a = toLowerCase b.

(** [UNIQUE(name, realm_slug, region)] *)
Definition character_key (c : CharacterRow) : string * string * string :=
  (char_name c, char_realm_slug c, char_region c).

Definition unique_characters (d : Db) : Prop :=
  NoDup (map character_key (characters d)).

(** Whether [fetchPvPBracket] throws for this bracket: no response, a
    failure status other than 404, or a body that does not parse. *)
Definition fetch_throws (net : Network) (token bracket : string) : bool :=
  match bracket_endpoint net token bracket with
  | Rejected => true
  | Response ok status json =>
      if negb ok then negb (status =? 404)
      else match json with Some _ => false | None => true end
  end.

Definition with_brackets (cfg : Config) (bs : list string) : Config :=
  {| characterName := characterName cfg; realmSlug := realmSlug cfg;
     region := region cfg; brackets := bs;
     pollIntervalMs := pollIntervalMs cfg |}.

(** The stored snapshots of one bracket. *)
Definition snapshots_in (bracket : string) (w : World) : list SnapshotRow :=
  filter (fun s => (snap_bracket s =? bracket)%string) (pvp_snapshots (db w)).

(** ** Sample data *)

Definition bracket_data (v_rating v_played v_won v_lost : Z) : PvPBracketData :=
  {| rating := v_rating;
     season_match_statistics :=
       {| played := v_played; won := v_won; lost := v_lost |};
     weekly_match_statistics :=
       {| played := v_played; won := v_won; lost := v_lost |} |}.

(** A clock that advances five minutes per reading, and one that stays
    within the same second. *)
Definition every_five_minutes : nat -> timestamp := fun n => 300 * Z.of_nat n.
Definition same_second : nat -> timestamp := fun _ => 1700000000.

(** The tracked character registered in a fresh database. *)
Definition registered (clk : nat -> timestamp) : World :=
  snd (getOrCreateCharacter "Bigbrainwiz" "MalGanis" "US" (initial_world true clk)).

(** The first fetch of the end-to-end scenario has been processed. *)
Definition first_seen (clk : nat -> timestamp) : World :=
  snd (processSnapshot 1 "shuffle-priest-shadow" (bracket_data 1500 10 6 4)
         (registered clk)).

(** ... and the second one. *)
Definition second_seen (clk : nat -> timestamp) : World :=
  snd (processSnapshot 1 "shuffle-priest-shadow" (bracket_data 1516 12 7 5)
         (first_seen clk)).

(** The row the first fetch left in the store. *)
Definition first_snapshot (clk : nat -> timestamp) : SnapshotRow :=
  {| snap_id := 1; snap_character_id := 1;
     snap_bracket := "shuffle-priest-shadow"; snap_timestamp := clk 0%nat;
     snap_rating := 1500; season_played := 10; season_won := 6;
     season_lost := 4; weekly_played := 10; weekly_won := 6;
     weekly_lost := 4 |}.

(** Both brackets tracked for a while: shuffle goes 10, 12, 13 games and
    blitz 5, 7, with the calls interleaved. *)
Definition two_brackets : World :=
  snd (processSnapshot 1 "shuffle-priest-shadow" (bracket_data 1520 13 8 5)
  (snd (processSnapshot 1 "blitz-priest-shadow" (bracket_data 1388 7 3 4)
  (snd (processSnapshot 1 "blitz-priest-shadow" (bracket_data 1400 5 3 2)
         (second_seen every_five_minutes)))))).

(** The API rejects the shuffle bracket with status 500 and serves blitz. *)
Definition shuffle_down : Network :=
  {| token_endpoint := Response true 200 (Some "token");
     bracket_endpoint := fun _ bracket =>
       if (bracket =? "shuffle-priest-shadow")%string
       then Response false 500 None
       else Response true 200 (Some (bracket_data 1800 40 22 18)) |}.

(** The API has no shuffle data for the character (404) and serves blitz. *)
Definition shuffle_not_found : Network :=
  {| token_endpoint := Response true 200 (Some "token");
     bracket_endpoint := fun _ bracket =>
       if (bracket =? "shuffle-priest-shadow")%string
       then Response false 404 None
       else Response true 200 (Some (bracket_data 1800 40 22 18)) |}.

(** ** tracker.ts: the statistics of [showStats] *)

(** One bucket of [hourlyStats]. *)
Record HourStats := {
  hs_games : Z;
  hs_ratingChange : Z;
  hs_wins : Z;
  hs_losses : Z
}.

(** [{ games: 0, ratingChange: 0, wins: 0, losses: 0 }] *)
Definition no_stats : HourStats :=
  {| hs_games := 0; hs_ratingChange := 0; hs_wins := 0; hs_losses := 0 |}.

(** The four [+=] of the aggregation loop. *)
Definition add_change (s : HourStats) (c : RatingChange) : HourStats :=
  {| hs_games := hs_games s + games_played c;
     hs_ratingChange := hs_ratingChange s + rating_change c;
     hs_wins := hs_wins s + games_won c;
     hs_losses := hs_losses s + games_lost c |}.

(** The object [hourlyStats], as the list of its keys with their buckets.
    [bucket_add hour c o] is one turn of the loop: the bucket of [hour] is
    created when [hourlyStats[hour]] is missing, then [c] is added to it. *)
Fixpoint bucket_add (hour : Z) (c : RatingChange) (o : list (Z * HourStats))
  : list (Z * HourStats) :=
  match o with
  | [] => [(hour, add_change no_stats c)]
  | (h, s) :: o' =>
      if h =? hour then (h, add_change s c) :: o'
      else (h, s) :: bucket_add hour c o'
  end.

(** [for (const change of changes) { ... }], with
    [new Date(change.timestamp).getHours()] as the parameter [getHours]. *)
Definition hourlyStats (getHours : timestamp -> Z) (changes : list RatingChange)
  : list (Z * HourStats) :=
  fold_left (fun o c => bucket_add (getHours (rc_timestamp c)) c o) changes [].

(** [Object.entries(hourlyStats).sort((a, b) => Number(a[0]) - Number(b[0]))] *)
Definition sortedHours (getHours : timestamp -> Z) (changes : list RatingChange)
  : list (Z * HourStats) :=
  Sql.order_by (Sql.asc fst) (hourlyStats getHours changes).

(** What [showStats] prints for one bracket: the line that nothing is
    recorded yet, or the history followed by the hour buckets. *)
Inductive BracketReport :=
| NoChangesYet
| History (changes : list RatingChange) (hours : list (Z * HourStats)).

Fixpoint for_each_report {A B} (xs : list A) (body : A -> M B) : M (list B) :=
  match xs with
  | [] => ret []
  | x :: xs' => y <- body x ;; ys <- for_each_report xs' body ;; ret (y :: ys)
  end.

(** [showStats], with the configuration made explicit; what it prints is
    returned, bracket by bracket, instead of being written to the console.
    The win rate it prints is computed from the bucket's wins and games. *)
Definition showStatsWith `{CaseFolding} (getHours : timestamp -> Z) (cfg : Config)
  : M (list (string * BracketReport)) :=
  characterId <- getOrCreateCharacter (characterName cfg) (realmSlug cfg) (region cfg) ;;
  for_each_report (brackets cfg) (fun bracket =>
    changes <- getRatingChanges characterId (Some bracket) ;;
    match changes with
    | [] => ret (bracket, NoChangesYet)
    | _ => ret (bracket, History changes (sortedHours getHours changes))
    end).

Definition showStats `{CaseFolding} (getHours : timestamp -> Z)
  : M (list (string * BracketReport)) := showStatsWith getHours CONFIG.

(** The hour of the day of a stamp counted in seconds. *)
Definition hour_of_day (t : timestamp) : Z := (t / 3600) mod 24.

(** [hourlyStats[hour]] *)
Fixpoint bucket_lookup (hour : Z) (o : list (Z * HourStats)) : option HourStats :=
  match o with
  | [] => None
  | (h, s) :: o' => if h =? hour then Some s else bucket_lookup hour o'
  end.

(** The changes stamped within one hour of the day, and their totals. *)
Definition changes_at (getHours : timestamp -> Z) (hour : Z)
  (changes : list RatingChange) : list RatingChange :=
  filter (fun c => getHours (rc_timestamp c) =? hour) changes.

Definition totals (changes : list RatingChange) : HourStats :=
  fold_left add_change changes no_stats.

Definition Zsum (l : list Z) : Z := fold_right Z.add 0 l.

(** ** Further vocabulary *)

(** [d'] holds everything [d] holds, in place, and possibly more rows. *)
Definition extends (d d' : Db) : Prop :=
  foreign_keys d' = foreign_keys d
  /\ (exists cs, characters d' = characters d ++ cs)
  /\ (exists ss, pvp_snapshots d' = pvp_snapshots d ++ ss)
  /\ (exists rs, rating_changes d' = rating_changes d ++ rs).

(** A computation only appends rows, whether it returns or throws. *)
Definition grows {A} (c : M A) : Prop :=
  forall w, extends (db w) (db (snd (c w))).



(** Rowids are positive and grow along the table. *)
Definition rowids_ok (ids : list Z) : Prop :=
  StronglySorted Z.lt ids /\ Forall (fun i => 0 < i) ids.

(** The three tables have well-formed keys. *)
Definition keys_ok (d : Db) : Prop :=
  rowids_ok (map char_id (characters d))
  /\ unique_characters d
  /\ rowids_ok (map snap_id (pvp_snapshots d))
  /\ rowids_ok (map change_id (rating_changes d)).

(** Every child row names a stored character. *)
Definition references_ok (d : Db) : Prop :=
  Forall (fun s => character_known d (snap_character_id s) = true) (pvp_snapshots d)
  /\ Forall (fun r => character_known d (change_character_id r) = true)
       (rating_changes d).

(** The key [getOrCreateCharacter] looks up. *)
Definition folded_key `{CaseFolding} (name realm_slug v_region : string)
  : string * string * string :=
  (toLowerCase name, toLowerCase realm_slug, toLowerCase v_region).

(** The snapshot row holds the values of the fetched data. *)
Definition stores (s : SnapshotRow) (data : PvPBracketData) : Prop :=
  snap_rating s = rating data
  /\ season_played s = played (season_match_statistics data)
  /\ season_won s = won (season_match_statistics data)
  /\ season_lost s = lost (season_match_statistics data)
  /\ weekly_played s = played (weekly_match_statistics data)
  /\ weekly_won s = won (weekly_match_statistics data)
  /\ weekly_lost s = lost (weekly_match_statistics data).


(** Whether [getAccessToken] throws: no response, a failure status, or a
    body that does not parse. *)
Definition token_fails (net : Network) : bool :=
  match token_endpoint net with
  | Response true _ (Some _) => false
  | _ => true
  end.

(** The tracker's two brackets both served. *)
Definition all_up : Network :=
  {| token_endpoint := Response true 200 (Some "token");
     bracket_endpoint := fun _ bracket =>
       if (bracket =? "shuffle-priest-shadow")%string
       then Response true 200 (Some (bracket_data 1516 12 7 5))
       else Response true 200 (Some (bracket_data 1800 40 22 18)) |}.

(** The token endpoint refuses the credentials. *)
Definition token_refused : Network :=
  {| token_endpoint := Response false 401 None;
     bracket_endpoint := fun _ _ => Response true 200 (Some (bracket_data 1800 40 22 18)) |}.

(** ** Proof automation *)

(** Unfolds the database functions down to the monad. *)
Ltac run_program :=
  unfold processSnapshot, getLatestSnapshot, saveSnapshot, recordRatingChange,
    getOrCreateCharacter, getRatingChanges, run_child_insert, run, query,
    console_log, CURRENT_TIMESTAMP, bind, ret, throw; simpl.

(* ===================================================================== *)
(** * Part II.  Properties                                                *)
(* ===================================================================== *)

(** ** The sorter *)

Section Sorter.

Context {A : Type} (before : A -> A -> bool).

Hypothesis before_total : forall a b, before a b = true \/ before b a = true.
Hypothesis before_trans :
  forall a b c, before a b = true -> before b c = true -> before a c = true.

Lemma insert_by_perm (x : A) (l : list A) :
  Permutation (Sql.insert_by before x l) (x :: l).
Proof.
  induction l as [|y l IH]; simpl.
  - apply Permutation_refl.
  - destruct (before x y).
    + apply Permutation_refl.
    + eapply perm_trans; [apply perm_skip, IH | apply perm_swap].
Qed.

Lemma order_by_perm (l : list A) : Permutation (Sql.order_by before l) l.
Proof.
  induction l as [|x l IH]; simpl.
  - apply perm_nil.
  - eapply perm_trans; [apply insert_by_perm | apply perm_skip, IH].
Qed.

Lemma insert_by_sorted (x : A) (l : list A) :
  Sql.sorted_by before l -> Sql.sorted_by before (Sql.insert_by before x l).
Proof.
  unfold Sql.sorted_by. induction 1 as [|y l Hl IH Hy]; simpl.
  - repeat constructor.
  - destruct (before x y) eqn:Hxy.
    + constructor; [constructor; assumption|].
      constructor; [exact Hxy|].
      eapply Forall_impl; [|exact Hy].
      intros z Hz. exact (before_trans _ _ _ Hxy Hz).
    + constructor; [exact IH|].
      assert (Hyx : before y x = true)
        by (destruct (before_total x y); [congruence | assumption]).
      eapply Permutation_Forall.
      * apply Permutation_sym, insert_by_perm.
      * constructor; assumption.
Qed.

Lemma order_by_sorted (l : list A) : Sql.sorted_by before (Sql.order_by before l).
Proof.
  induction l as [|x l IH]; simpl.
  - constructor.
  - apply insert_by_sorted, IH.
Qed.

(** Selecting rows commutes with sorting: rows that compare equal keep
    their scan order. *)
Lemma filter_insert_by (p : A -> bool) (x : A) (l : list A) :
  Sql.sorted_by before l ->
  filter p (Sql.insert_by before x l)
  = if p x then Sql.insert_by before x (filter p l) else filter p l.
Proof.
  unfold Sql.sorted_by. induction 1 as [|y l Hl IH Hy]; simpl.
  - destruct (p x); reflexivity.
  - destruct (before x y) eqn:Hxy; simpl.
    + destruct (p x) eqn:Hpx; [|reflexivity].
      destruct (p y) eqn:Hpy; simpl; [rewrite Hxy; reflexivity|].
      assert (Hall : Forall (fun z => before x z = true) (filter p l)).
      { rewrite Forall_forall in Hy |- *. intros z Hz.
        apply filter_In in Hz. destruct Hz as [Hz _].
        exact (before_trans _ _ _ Hxy (Hy z Hz)). }
      destruct (filter p l) as [|z fl]; simpl; [reflexivity|].
      inversion Hall as [|? ? Hxz _]; subst.
      rewrite Hxz. reflexivity.
    + rewrite IH. destruct (p y) eqn:Hpy; destruct (p x) eqn:Hpx; simpl;
        try rewrite Hxy; reflexivity.
Qed.

Lemma filter_order_by (p : A -> bool) (l : list A) :
  filter p (Sql.order_by before l) = Sql.order_by before (filter p l).
Proof.
  induction l as [|x l IH]; simpl; [reflexivity|].
  rewrite filter_insert_by by apply order_by_sorted.
  rewrite IH. destruct (p x); reflexivity.
Qed.

Lemma order_by_nil (l : list A) : Sql.order_by before l = [] -> l = [].
Proof.
  intros H. apply Permutation_nil. rewrite <- H. apply order_by_perm.
Qed.

(** The first row out of the sorter stands before every other one, and
    among the rows that compare equal to it, it is the first one scanned. *)
Lemma order_by_head (l : list A) (x : A) :
  hd_error (Sql.order_by before l) = Some x ->
  exists l1 l2,
    l = l1 ++ x :: l2
    /\ (forall y, In y l1 -> before y x = false)
    /\ (forall y, In y l2 -> before x y = true).
Proof.
  revert x. induction l as [|a l IH]; simpl; intros x Hx; [discriminate|].
  destruct (Sql.order_by before l) as [|y s] eqn:Hs; simpl in Hx.
  - injection Hx as <-.
    rewrite (order_by_nil l Hs).
    exists [], []. repeat split; intros ? [].
  - destruct (IH y eq_refl) as (l1 & l2 & -> & H1 & H2).
    destruct (before a y) eqn:Hay; simpl in Hx; injection Hx as <-.
    + exists [], (l1 ++ y :: l2). repeat split; [intros ? []|].
      intros z Hz. apply in_app_or in Hz. destruct Hz as [Hz|[<-|Hz]].
      * apply (before_trans _ y); [exact Hay|].
        destruct (before_total y z) as [H|H]; [exact H|].
        rewrite (H1 z Hz) in H. discriminate.
      * exact Hay.
      * exact (before_trans _ _ _ Hay (H2 z Hz)).
    + exists (a :: l1), l2. repeat split; [|exact H2].
      intros z [<-|Hz]; [exact Hay | exact (H1 z Hz)].
Qed.

End Sorter.

Lemma asc_total {A} (key : A -> Z) (a b : A) :
  Sql.asc key a b = true \/ Sql.asc key b a = true.
Proof. unfold Sql.asc. lia. Qed.

Lemma asc_trans {A} (key : A -> Z) (a b c : A) :
  Sql.asc key a b = true -> Sql.asc key b c = true -> Sql.asc key a c = true.
Proof. unfold Sql.asc. lia. Qed.

Lemma desc_total {A} (key : A -> Z) (a b : A) :
  Sql.desc key a b = true \/ Sql.desc key b a = true.
Proof. unfold Sql.desc. lia. Qed.

Lemma desc_trans {A} (key : A -> Z) (a b c : A) :
  Sql.desc key a b = true -> Sql.desc key b c = true -> Sql.desc key a c = true.
Proof. unfold Sql.desc. lia. Qed.

Lemma get_limit_1 {A} (l : list A) : Sql.get (firstn 1 l) = hd_error l.
Proof. destruct l; reflexivity. Qed.

(** ** Running the database functions *)

Lemma getLatestSnapshot_reads (characterId : Z) (bracket : string) (w : World) :
  getLatestSnapshot characterId bracket w
  = (Normal (Sql.get (select_latest_snapshot characterId bracket (db w))), w).
Proof. reflexivity. Qed.

Lemma getLatestSnapshot_inv (characterId : Z) (bracket : string) (w w' : World)
  (found : option SnapshotRow) :
  getLatestSnapshot characterId bracket w = (Normal found, w') ->
  Sql.get (select_latest_snapshot characterId bracket (db w)) = found.
Proof. rewrite getLatestSnapshot_reads. congruence. Qed.

(** What a call of [processSnapshot] on a known character does, case by
    case of the body. *)
Lemma processSnapshot_cases (w : World) (characterId : Z) (bracket : string)
  (data : PvPBracketData) :
  fk_holds (db w) characterId = true ->
  exists r w',
    processSnapshot characterId bracket data w = (Normal r, w')
    /\ foreign_keys (db w') = foreign_keys (db w)
    /\ characters (db w') = characters (db w)
    /\ pvp_snapshots (db w')
       = pvp_snapshots (db w) ++ [saved_snapshot w characterId bracket data]
    /\ clock w' = clock w
    /\ match Sql.get (select_latest_snapshot characterId bracket (db w)) with
       | None =>
           r = {| changed := false; ratingChange := None |}
           /\ rating_changes (db w') = rating_changes (db w)
           /\ ticks w' = S (ticks w)
           /\ console w' = console w ++ [LogFirstSnapshot bracket]
       | Some last =>
           if 0 <? played (season_match_statistics data) - season_played last then
             r = {| changed := true;
                    ratingChange := Some (rating data - snap_rating last) |}
             /\ rating_changes (db w')
                = rating_changes (db w) ++
                  [delta_row (Sql.next_rowid (map change_id (rating_changes (db w))))
                     (clock w (S (ticks w))) characterId bracket last data]
             /\ ticks w' = S (S (ticks w))
             /\ exists l1 l2, console w' = console w ++ [l1; l2]
           else
             r = {| changed := false; ratingChange := None |}
             /\ rating_changes (db w') = rating_changes (db w)
             /\ ticks w' = S (ticks w)
             /\ console w' = console w
       end.
Proof.
  intros Hfk. run_program. rewrite Hfk. simpl.
  destruct (Sql.get (select_latest_snapshot characterId bracket (db w)))
    as [last|]; simpl.
  - destruct (0 <? played (season_match_statistics data) - season_played last);
      simpl.
    + unfold fk_holds, character_known in *. simpl. rewrite Hfk. simpl.
      do 2 eexists. split; [reflexivity|]. simpl.
      repeat split; try reflexivity.
      do 2 eexists. rewrite <- app_assoc. reflexivity.
    + do 2 eexists. split; [reflexivity|]. simpl. repeat split; reflexivity.
  - do 2 eexists. split; [reflexivity|]. simpl. repeat split; reflexivity.
Qed.

(** A call on a character the enforced foreign key does not know throws,
    and writes nothing. *)
Lemma processSnapshot_unknown_character (w : World) (characterId : Z)
  (bracket : string) (data : PvPBracketData) :
  fk_holds (db w) characterId = false ->
  exists e w',
    processSnapshot characterId bracket data w = (Throw e, w') /\ db w' = db w.
Proof.
  intros Hfk. run_program. rewrite Hfk. simpl.
  do 2 eexists. split; reflexivity.
Qed.

(** ** The change detector inside [processSnapshot] *)

(** C1: when the stored previous snapshot [S1] has fewer season games than
    the fetched data, [processSnapshot] returns [changed = true] with
    [ratingChange = rating - S1.rating], and appends one ledger row holding
    the previous rating, the current rating and the raw differences of the
    played, won and lost counters; nothing relates the won and lost
    differences to the played one, whatever their values or signs. *)
Theorem processSnapshot_records_activity (w : World) (characterId : Z)
  (bracket : string) (S2 : PvPBracketData) (S1 : SnapshotRow) :
  fk_holds (db w) characterId = true ->
  getLatestSnapshot characterId bracket w = (Normal (Some S1), w) ->
  season_played S1 < played (season_match_statistics S2) ->
  exists w',
    processSnapshot characterId bracket S2 w
    = (Normal {| changed := true;
                 ratingChange := Some (rating S2 - snap_rating S1) |}, w')
    /\ exists rowid now,
        rating_changes (db w')
        = rating_changes (db w) ++
          [{| change_id := rowid;
              change_character_id := characterId;
              change_columns :=
                {| rc_timestamp := now;
                   rc_bracket := bracket;
                   old_rating := snap_rating S1;
                   new_rating := rating S2;
                   rating_change := rating S2 - snap_rating S1;
                   games_played :=
                     played (season_match_statistics S2) - season_played S1;
                   games_won := won (season_match_statistics S2) - season_won S1;
                   games_lost :=
                     lost (season_match_statistics S2) - season_lost S1 |} |}].
Proof.
  intros Hfk Hlast Hplayed.
  apply getLatestSnapshot_inv in Hlast.
  destruct (processSnapshot_cases w characterId bracket S2 Hfk)
    as (r & w' & Hrun & _ & _ & _ & _ & Hcase).
  rewrite Hlast in Hcase.
  replace (0 <? played (season_match_statistics S2) - season_played S1)
    with true in Hcase by (symmetry; apply Z.ltb_lt; lia).
  destruct Hcase as (-> & Hledger & _).
  exists w'. split; [exact Hrun|].
  do 2 eexists. exact Hledger.
Qed.

(** C2: when the fetched data has no more season games than the stored
    previous snapshot (equal, or lower after a season reset),
    [processSnapshot] returns [changed = false] and the ledger is left as it
    was, whatever the two ratings are. *)
Theorem processSnapshot_no_activity (w : World) (characterId : Z)
  (bracket : string) (S2 : PvPBracketData) (S1 : SnapshotRow) :
  fk_holds (db w) characterId = true ->
  getLatestSnapshot characterId bracket w = (Normal (Some S1), w) ->
  played (season_match_statistics S2) <= season_played S1 ->
  exists w',
    processSnapshot characterId bracket S2 w
    = (Normal {| changed := false; ratingChange := None |}, w')
    /\ rating_changes (db w') = rating_changes (db w).
Proof.
  intros Hfk Hlast Hplayed.
  apply getLatestSnapshot_inv in Hlast.
  destruct (processSnapshot_cases w characterId bracket S2 Hfk)
    as (r & w' & Hrun & _ & _ & _ & _ & Hcase).
  rewrite Hlast in Hcase.
  replace (0 <? played (season_match_statistics S2) - season_played S1)
    with false in Hcase by (symmetry; apply Z.ltb_ge; lia).
  destruct Hcase as (-> & Hledger & _).
  exists w'. split; assumption.
Qed.

(** C5: when no snapshot is stored for the character and bracket,
    [processSnapshot] completes normally (it does not throw), returns
    [changed = false] and leaves the ledger as it was. *)
Theorem processSnapshot_first_observation (w : World) (characterId : Z)
  (bracket : string) (S : PvPBracketData) :
  fk_holds (db w) characterId = true ->
  getLatestSnapshot characterId bracket w = (Normal None, w) ->
  exists w',
    processSnapshot characterId bracket S w
    = (Normal {| changed := false; ratingChange := None |}, w')
    /\ rating_changes (db w') = rating_changes (db w).
Proof.
  intros Hfk Hlast.
  apply getLatestSnapshot_inv in Hlast.
  destruct (processSnapshot_cases w characterId bracket S Hfk)
    as (r & w' & Hrun & _ & _ & _ & _ & Hcase).
  rewrite Hlast in Hcase.
  destruct Hcase as (-> & Hledger & _).
  exists w'. split; assumption.
Qed.

(** C10: a call of [processSnapshot] appends exactly one snapshot row,
    appends one ledger row when it returns [changed = true] and none when it
    returns [changed = false], and leaves the characters and every row
    already stored as they were; the previous snapshot it compares with is
    the one read in the state before the call, so the row the call writes is
    never its own predecessor. *)
Theorem processSnapshot_frame (w : World) (characterId : Z) (bracket : string)
  (data : PvPBracketData) :
  fk_holds (db w) characterId = true ->
  exists r w',
    processSnapshot characterId bracket data w = (Normal r, w')
    /\ pvp_snapshots (db w')
       = pvp_snapshots (db w) ++ [saved_snapshot w characterId bracket data]
    /\ (changed r = true ->
        exists row, rating_changes (db w') = rating_changes (db w) ++ [row])
    /\ (changed r = false -> rating_changes (db w') = rating_changes (db w))
    /\ characters (db w') = characters (db w)
    /\ (changed r = true <->
        exists previous,
          getLatestSnapshot characterId bracket w = (Normal (Some previous), w)
          /\ season_played previous < played (season_match_statistics data)).
Proof.
  intros Hfk.
  destruct (processSnapshot_cases w characterId bracket data Hfk)
    as (r & w' & Hrun & _ & Hchars & Hsnaps & _ & Hcase).
  exists r, w'. split; [exact Hrun|]. split; [exact Hsnaps|].
  rewrite getLatestSnapshot_reads.
  destruct (Sql.get (select_latest_snapshot characterId bracket (db w)))
    as [last|].
  - destruct (0 <? played (season_match_statistics data) - season_played last)
      eqn:Hdiff; destruct Hcase as (-> & Hledger & _); simpl.
    + apply Z.ltb_lt in Hdiff.
      repeat split; try assumption; try discriminate.
      * intros _. eexists. exact Hledger.
      * intros _. exists last. split; [reflexivity | lia].
    + apply Z.ltb_ge in Hdiff.
      repeat split; try assumption; try discriminate.
      * intros _. exact Hledger.
      * intros (previous & Heq & Hlt). injection Heq as <-. lia.
  - destruct Hcase as (-> & Hledger & _); simpl.
    repeat split; try assumption; try discriminate.
    + intros _. exact Hledger.
    + intros (previous & Heq & _). discriminate.
Qed.

(** The theorems above at the end-to-end scenario.  In the first one the
    upstream counters are inconsistent (two more games played, three fewer
    won, seven more lost): the row is written all the same. *)
Lemma processSnapshot_records_activity_witness :
  let w := first_seen every_five_minutes in
  let S1 := first_snapshot every_five_minutes in
  let S2 := bracket_data 1490 12 3 11 in
  fk_holds (db w) 1 = true
  /\ getLatestSnapshot 1 "shuffle-priest-shadow" w = (Normal (Some S1), w)
  /\ season_played S1 < played (season_match_statistics S2)
  /\ exists w',
      processSnapshot 1 "shuffle-priest-shadow" S2 w
      = (Normal {| changed := true; ratingChange := Some (-10) |}, w')
      /\ exists rowid now,
          rating_changes (db w')
          = rating_changes (db w) ++
            [{| change_id := rowid;
                change_character_id := 1;
                change_columns :=
                  {| rc_timestamp := now;
                     rc_bracket := "shuffle-priest-shadow";
                     old_rating := 1500; new_rating := 1490;
                     rating_change := -10; games_played := 2;
                     games_won := -3; games_lost := 7 |} |}].
Proof.
  intros w S1 S2.
  split; [reflexivity|]. split; [reflexivity|]. split; [reflexivity|].
  apply (processSnapshot_records_activity w 1 "shuffle-priest-shadow" S2 S1);
    reflexivity.
Defined.

Lemma processSnapshot_no_activity_witness :
  let w := first_seen every_five_minutes in
  let S1 := first_snapshot every_five_minutes in
  let S2 := bracket_data 1533 3 2 1 in
  fk_holds (db w) 1 = true
  /\ getLatestSnapshot 1 "shuffle-priest-shadow" w = (Normal (Some S1), w)
  /\ played (season_match_statistics S2) <= season_played S1
  /\ exists w',
      processSnapshot 1 "shuffle-priest-shadow" S2 w
      = (Normal {| changed := false; ratingChange := None |}, w')
      /\ rating_changes (db w') = rating_changes (db w).
Proof.
  intros w S1 S2.
  split; [reflexivity|]. split; [reflexivity|].
  split; [simpl; lia|].
  apply (processSnapshot_no_activity w 1 "shuffle-priest-shadow" S2 S1);
    [reflexivity | reflexivity | simpl; lia].
Defined.

Lemma processSnapshot_first_observation_witness :
  let w := registered every_five_minutes in
  let S := bracket_data 1500 10 6 4 in
  fk_holds (db w) 1 = true
  /\ getLatestSnapshot 1 "shuffle-priest-shadow" w = (Normal None, w)
  /\ exists w',
      processSnapshot 1 "shuffle-priest-shadow" S w
      = (Normal {| changed := false; ratingChange := None |}, w')
      /\ rating_changes (db w') = rating_changes (db w).
Proof.
  intros w S.
  split; [reflexivity|]. split; [reflexivity|].
  apply (processSnapshot_first_observation w 1 "shuffle-priest-shadow" S);
    reflexivity.
Defined.

Lemma processSnapshot_frame_witness :
  let w := first_seen every_five_minutes in
  let data := bracket_data 1516 12 7 5 in
  fk_holds (db w) 1 = true
  /\ exists r w',
      processSnapshot 1 "shuffle-priest-shadow" data w = (Normal r, w')
      /\ pvp_snapshots (db w')
         = pvp_snapshots (db w) ++
           [saved_snapshot w 1 "shuffle-priest-shadow" data]
      /\ (changed r = true ->
          exists row, rating_changes (db w') = rating_changes (db w) ++ [row])
      /\ (changed r = false -> rating_changes (db w') = rating_changes (db w))
      /\ characters (db w') = characters (db w)
      /\ (changed r = true <->
          exists previous,
            getLatestSnapshot 1 "shuffle-priest-shadow" w
            = (Normal (Some previous), w)
            /\ season_played previous < played (season_match_statistics data)).
Proof.
  intros w data.
  split; [reflexivity|].
  apply (processSnapshot_frame w 1 "shuffle-priest-shadow" data).
  reflexivity.
Defined.

(** ** The snapshot store: which row is the latest *)

(** [getLatestSnapshot] answers with a stored row of the pair whose
    timestamp no other row of the pair exceeds; the rows of the pair stored
    before it are strictly older, so among rows that share the greatest
    timestamp it is the one inserted first. *)
Lemma getLatestSnapshot_greatest (w : World) (characterId : Z) (bracket : string)
  (s : SnapshotRow) :
  getLatestSnapshot characterId bracket w = (Normal (Some s), w) ->
  exists older rest,
    filter (snapshot_of characterId bracket) (pvp_snapshots (db w))
    = older ++ s :: rest
    /\ (forall y, In y older -> snap_timestamp y < snap_timestamp s)
    /\ (forall y, In y rest -> snap_timestamp y <= snap_timestamp s).
Proof.
  intros Hget. apply getLatestSnapshot_inv in Hget.
  unfold select_latest_snapshot in Hget. rewrite get_limit_1 in Hget.
  destruct (order_by_head (Sql.desc snap_timestamp)
              (desc_total snap_timestamp) (desc_trans snap_timestamp) _ _ Hget)
    as (older & rest & Hsplit & Holder & Hrest).
  exists older, rest. split; [exact Hsplit|]. split.
  - intros y Hy. specialize (Holder y Hy). unfold Sql.desc in Holder. lia.
  - intros y Hy. specialize (Hrest y Hy). unfold Sql.desc in Hrest. lia.
Qed.

Lemma getLatestSnapshot_absent (w : World) (characterId : Z) (bracket : string) :
  getLatestSnapshot characterId bracket w = (Normal None, w) <->
  filter (snapshot_of characterId bracket) (pvp_snapshots (db w)) = [].
Proof.
  rewrite getLatestSnapshot_reads. unfold select_latest_snapshot.
  rewrite get_limit_1. split.
  - intros Hget.
    apply (order_by_nil (Sql.desc snap_timestamp)).
    destruct (Sql.order_by _ _); [reflexivity | discriminate].
  - intros ->. reflexivity.
Qed.

(** A row stamped later than every stored row of its pair is the latest one
    once appended. *)
Lemma getLatestSnapshot_newest (w : World) (characterId : Z) (bracket : string)
  (s : SnapshotRow) (stored : list SnapshotRow) :
  pvp_snapshots (db w) = stored ++ [s] ->
  snapshot_of characterId bracket s = true ->
  (forall y, In y stored -> snapshot_of characterId bracket y = true ->
             snap_timestamp y < snap_timestamp s) ->
  getLatestSnapshot characterId bracket w = (Normal (Some s), w).
Proof.
  intros Hrows Hs Hnewer.
  destruct (Sql.get (select_latest_snapshot characterId bracket (db w)))
    as [x|] eqn:Hget.
  - assert (Hx : getLatestSnapshot characterId bracket w = (Normal (Some x), w))
      by (rewrite getLatestSnapshot_reads, Hget; reflexivity).
    rewrite Hx. do 3 f_equal.
    destruct (getLatestSnapshot_greatest _ _ _ _ Hx)
      as (older & rest & Hsplit & Holder & Hrest).
    rewrite Hrows, filter_app in Hsplit. simpl in Hsplit. rewrite Hs in Hsplit.
    assert (Hin_s : In s (older ++ x :: rest))
      by (rewrite <- Hsplit; apply in_or_app; right; left; reflexivity).
    assert (Hin_x : In x (filter (snapshot_of characterId bracket) stored ++ [s]))
      by (rewrite Hsplit; apply in_or_app; right; left; reflexivity).
    apply in_app_or in Hin_x. destruct Hin_x as [Hin_x|[Heq|[]]]; [|congruence].
    apply filter_In in Hin_x. destruct Hin_x as [Hin_x Hpx].
    specialize (Hnewer x Hin_x Hpx).
    apply in_app_or in Hin_s. destruct Hin_s as [Hin_s|[Heq|Hin_s]].
    + specialize (Holder s Hin_s). lia.
    + congruence.
    + specialize (Hrest s Hin_s). lia.
  - assert (Hnone : getLatestSnapshot characterId bracket w = (Normal None, w))
      by (rewrite getLatestSnapshot_reads, Hget; reflexivity).
    apply getLatestSnapshot_absent in Hnone.
    rewrite Hrows, filter_app in Hnone. simpl in Hnone. rewrite Hs in Hnone.
    destruct (filter (snapshot_of characterId bracket) stored); discriminate.
Qed.

(** C4: evaluation at two snapshots of one pair stamped within the same
    second.  The statement orders by timestamp only, and the row returned is
    the one inserted first (rowid 1, ten games), not the one inserted last
    (rowid 2, twelve games). *)
Theorem getLatestSnapshot_tie_returns_first_inserted :
  let w := second_seen same_second in
  map (fun s => (snap_id s, snap_timestamp s, season_played s))
      (pvp_snapshots (db w))
  = [(1, 1700000000, 10); (2, 1700000000, 12)]
  /\ getLatestSnapshot 1 "shuffle-priest-shadow" w
     = (Normal (Some (first_snapshot same_second)), w).
Proof. split; reflexivity. Qed.

(** ** Polling the same data again *)

(** When the first of two calls with the same data is stamped later than
    every stored snapshot of the pair, both calls store a snapshot and the
    second one reports no change and writes no ledger row. *)
Lemma repoll_after_newer_stamp (w : World) (characterId : Z) (bracket : string)
  (data : PvPBracketData) :
  fk_holds (db w) characterId = true ->
  (forall y, In y (pvp_snapshots (db w)) ->
             snapshot_of characterId bracket y = true ->
             snap_timestamp y < clock w (ticks w)) ->
  exists r1 w1 w2,
    processSnapshot characterId bracket data w = (Normal r1, w1)
    /\ processSnapshot characterId bracket data w1
       = (Normal {| changed := false; ratingChange := None |}, w2)
    /\ pvp_snapshots (db w2)
       = pvp_snapshots (db w) ++
         [saved_snapshot w characterId bracket data;
          saved_snapshot w1 characterId bracket data]
    /\ rating_changes (db w2) = rating_changes (db w1).
Proof.
  intros Hfk Hnewer.
  destruct (processSnapshot_cases w characterId bracket data Hfk)
    as (r1 & w1 & Hrun1 & Hfk1 & Hchars1 & Hsnaps1 & _ & _).
  assert (Hfk' : fk_holds (db w1) characterId = true).
  { unfold fk_holds, character_known in *. rewrite Hfk1, Hchars1. exact Hfk. }
  destruct (processSnapshot_cases w1 characterId bracket data Hfk')
    as (r2 & w2 & Hrun2 & _ & _ & Hsnaps2 & _ & Hcase).
  assert (Hlatest : getLatestSnapshot characterId bracket w1
                    = (Normal (Some (saved_snapshot w characterId bracket data)), w1)).
  { apply (getLatestSnapshot_newest w1 characterId bracket _ _ Hsnaps1).
    - unfold snapshot_of. simpl. rewrite Z.eqb_refl, String.eqb_refl. reflexivity.
    - exact Hnewer. }
  apply getLatestSnapshot_inv in Hlatest. rewrite Hlatest in Hcase.
  simpl in Hcase. rewrite Z.sub_diag in Hcase. simpl in Hcase.
  destruct Hcase as (-> & Hledger & _).
  exists r1, w1, w2. split; [exact Hrun1|]. split; [exact Hrun2|].
  split; [|exact Hledger].
  rewrite Hsnaps2, Hsnaps1, <- app_assoc. reflexivity.
Qed.

(** C6: evaluation of the end-to-end scenario run within one second.  The
    first fetch (ten games) is stored; the second fetch (twelve games) is
    processed twice in immediate succession.  Both calls store a snapshot,
    and the second call finds the ten-game row as previous snapshot again:
    it returns [changed = true] and appends a second ledger row. *)
Theorem repoll_same_second_records_twice :
  let w := first_seen same_second in
  let data := bracket_data 1516 12 7 5 in
  let w1 := snd (processSnapshot 1 "shuffle-priest-shadow" data w) in
  let w2 := snd (processSnapshot 1 "shuffle-priest-shadow" data w1) in
  processSnapshot 1 "shuffle-priest-shadow" data w
  = (Normal {| changed := true; ratingChange := Some 16 |}, w1)
  /\ processSnapshot 1 "shuffle-priest-shadow" data w1
     = (Normal {| changed := true; ratingChange := Some 16 |}, w2)
  /\ map season_played (pvp_snapshots (db w)) = [10]
  /\ map season_played (pvp_snapshots (db w2)) = [10; 12; 12]
  /\ map snap_timestamp (pvp_snapshots (db w2))
     = [1700000000; 1700000000; 1700000000]
  /\ List.length (rating_changes (db w1)) = 1%nat
  /\ List.length (rating_changes (db w2)) = 2%nat.
Proof. cbv zeta. repeat apply conj; vm_compute; reflexivity. Qed.

(** ** The character registry *)

Lemma existsb_filter_nil {A} (p : A -> bool) (l : list A) :
  existsb p l = false -> filter p l = [].
Proof.
  induction l as [|x l IH]; simpl; [reflexivity|].
  destruct (p x); simpl; [discriminate | exact IH].
Qed.

Lemma existsb_filter_head {A} (p : A -> bool) (l : list A) :
  existsb p l = true ->
  exists x, hd_error (filter p l) = Some x /\ In x l /\ p x = true.
Proof.
  induction l as [|x l IH]; simpl; [discriminate|].
  destruct (p x) eqn:Hpx; simpl.
  - intros _. exists x. repeat split; [left; reflexivity | exact Hpx].
  - intros H. destruct (IH H) as (y & Hy & Hin & Hpy).
    exists y. repeat split; [exact Hy | right; exact Hin | exact Hpy].
Qed.

Lemma same_character_key (name realm_slug v_region : string) (c : CharacterRow) :
  same_character name realm_slug v_region c = true <->
  character_key c = (name, realm_slug, v_region).
Proof.
  unfold same_character, character_key.
  rewrite !andb_true_iff, !String.eqb_eq. split.
  - intros [[-> ->] ->]. reflexivity.
  - intros H. injection H as -> -> ->. repeat split.
Qed.

(** The statement pair of [getOrCreateCharacter] on an already folded key:
    afterwards the key has a row, the first such row is the answer, and a
    database that had the key is not written to. *)
Lemma insert_or_ignore_then_select (name realm_slug v_region : string) (d : Db) :
  let d' := insert_or_ignore_character name realm_slug v_region d in
  exists row,
    Sql.get (select_character name realm_slug v_region d') = Some row
    /\ existsb (same_character name realm_slug v_region) (characters d') = true
    /\ In row (characters d')
    /\ character_key row = (name, realm_slug, v_region)
    /\ (existsb (same_character name realm_slug v_region) (characters d) = true ->
        d' = d)
    /\ (existsb (same_character name realm_slug v_region) (characters d) = false ->
        characters d' = characters d ++ [row]).
Proof.
  unfold insert_or_ignore_character, select_character, Sql.get.
  destruct (existsb (same_character name realm_slug v_region) (characters d))
    eqn:Hex.
  - destruct (existsb_filter_head _ _ Hex) as (row & Hrow & Hin & Hkey).
    apply same_character_key in Hkey.
    exists row. repeat split; try assumption. discriminate.
  - simpl. rewrite filter_app, (existsb_filter_nil _ _ Hex). simpl.
    assert (Hself : same_character name realm_slug v_region
              {| char_id := Sql.next_rowid (map char_id (characters d));
                 char_name := name; char_realm_slug := realm_slug;
                 char_region := v_region |} = true)
      by (apply same_character_key; reflexivity).
    rewrite Hself. eexists. repeat split.
    + rewrite existsb_app. simpl. rewrite Hself. apply orb_true_r.
    + apply in_or_app. right. left. reflexivity.
    + discriminate.
Qed.

Lemma insert_or_ignore_unique (name realm_slug v_region : string) (d : Db) :
  unique_characters d ->
  unique_characters (insert_or_ignore_character name realm_slug v_region d).
Proof.
  unfold unique_characters, insert_or_ignore_character. intros Hd.
  destruct (existsb (same_character name realm_slug v_region) (characters d))
    eqn:Hex; [exact Hd|]. simpl.
  rewrite map_app. simpl.
  apply NoDup_app; [exact Hd | repeat constructor; intros []|].
  intros k Hk [<-|[]].
  apply in_map_iff in Hk. destruct Hk as (c & Hc & Hin).
  apply same_character_key in Hc.
  assert (existsb (same_character name realm_slug v_region) (characters d) = true)
    by (apply existsb_exists; exists c; split; assumption).
  congruence.
Qed.

Section Registry.

Context `{CaseFolding}.

(** C9: spellings of name, realm and region that differ only by case get
    the same identifier, from the same state and from the state a previous
    call left; a call never throws; once a call has been made, every later
    call with a case variant returns that identifier and changes nothing;
    and a table with one row per key keeps one row per key. *)
Theorem getOrCreateCharacter_stable (w : World)
  (name realm_slug v_region name' realm_slug' v_region' : string) :
  case_variant name name' ->
  case_variant realm_slug realm_slug' ->
  case_variant v_region v_region' ->
  exists id w1,
    getOrCreateCharacter name realm_slug v_region w = (Normal id, w1)
    /\ getOrCreateCharacter name' realm_slug' v_region' w = (Normal id, w1)
    /\ getOrCreateCharacter name' realm_slug' v_region' w1 = (Normal id, w1)
    /\ getOrCreateCharacter name realm_slug v_region w1 = (Normal id, w1)
    /\ character_known (db w1) id = true
    /\ (existsb (same_character (toLowerCase name) (toLowerCase realm_slug)
                  (toLowerCase v_region)) (characters (db w)) = true ->
        w1 = w)
    /\ (existsb (same_character (toLowerCase name) (toLowerCase realm_slug)
                  (toLowerCase v_region)) (characters (db w)) = false ->
        exists row,
          characters (db w1) = characters (db w) ++ [row]
          /\ char_id row = id
          /\ character_key row
             = (toLowerCase name, toLowerCase realm_slug, toLowerCase v_region))
    /\ (unique_characters (db w) -> unique_characters (db w1))
    /\ pvp_snapshots (db w1) = pvp_snapshots (db w)
    /\ rating_changes (db w1) = rating_changes (db w).
Proof.
  unfold case_variant. intros Hn Hr Hg.
  unfold getOrCreateCharacter. rewrite <- Hn, <- Hr, <- Hg.
  set (n := toLowerCase name). set (r := toLowerCase realm_slug).
  set (g := toLowerCase v_region).
  destruct (insert_or_ignore_then_select n r g (db w))
    as (row & Hsel & Hex & Hin & Hkey & Hsame & Hnew).
  destruct (insert_or_ignore_then_select n r g
              (insert_or_ignore_character n r g (db w)))
    as (row' & Hsel' & _ & _ & _ & Hsame' & _).
  cbv zeta in *. specialize (Hsame' Hex).
  exists (char_id row),
    {| db := insert_or_ignore_character n r g (db w); console := console w;
       clock := clock w; ticks := ticks w |}.
  unfold run, query, bind, ret, throw. simpl.
  rewrite Hsame', Hsel.
  split; [reflexivity|]. split; [reflexivity|].
  split; [reflexivity|]. split; [reflexivity|].
  split.
  { unfold character_known. apply existsb_exists. exists row.
    split; [exact Hin | apply Z.eqb_refl]. }
  split.
  { intros Hex0. rewrite (Hsame Hex0). destruct w; reflexivity. }
  split.
  { intros Hex0. exists row. repeat split; [exact (Hnew Hex0) | exact Hkey]. }
  split; [apply insert_or_ignore_unique|].
  unfold insert_or_ignore_character.
  destruct (existsb (same_character n r g) (characters (db w))); simpl;
    split; reflexivity.
Qed.

End Registry.

Lemma getOrCreateCharacter_stable_witness :
  let w := initial_world true every_five_minutes in
  case_variant "Foo" "foo" /\ case_variant "Bar" "bar" /\ case_variant "us" "US"
  /\ exists id w1,
      getOrCreateCharacter "Foo" "Bar" "us" w = (Normal id, w1)
      /\ getOrCreateCharacter "foo" "bar" "US" w = (Normal id, w1)
      /\ getOrCreateCharacter "foo" "bar" "US" w1 = (Normal id, w1)
      /\ getOrCreateCharacter "Foo" "Bar" "us" w1 = (Normal id, w1)
      /\ character_known (db w1) id = true
      /\ (existsb (same_character "foo" "bar" "us") (characters (db w)) = true ->
          w1 = w)
      /\ (existsb (same_character "foo" "bar" "us") (characters (db w)) = false ->
          exists row,
            characters (db w1) = characters (db w) ++ [row]
            /\ char_id row = id
            /\ character_key row = ("foo", "bar", "us"))
      /\ (unique_characters (db w) -> unique_characters (db w1))
      /\ pvp_snapshots (db w1) = pvp_snapshots (db w)
      /\ rating_changes (db w1) = rating_changes (db w).
Proof.
  intros w.
  split; [reflexivity|]. split; [reflexivity|]. split; [reflexivity|].
  exact (getOrCreateCharacter_stable w "Foo" "Bar" "us" "foo" "bar" "US"
           eq_refl eq_refl eq_refl).
Defined.

(** ** The rating change ledger: [getRatingChanges] *)

Lemma filter_map_commute {A B} (f : A -> B) (p : B -> bool) (l : list A) :
  filter p (map f l) = map f (filter (fun x => p (f x)) l).
Proof.
  induction l as [|x l IH]; simpl; [reflexivity|].
  destruct (p (f x)); simpl; rewrite IH; reflexivity.
Qed.

Lemma filter_twice {A} (p q : A -> bool) (l : list A) :
  filter p (filter q l) = filter (fun x => q x && p x) l.
Proof.
  induction l as [|x l IH]; simpl; [reflexivity|].
  destruct (q x); simpl; [destruct (p x)|]; rewrite IH; reflexivity.
Qed.

Lemma sorted_columns (l : list RatingChangeRow) :
  Sql.sorted_by (Sql.asc (fun r => rc_timestamp (change_columns r))) l ->
  StronglySorted (fun a b => rc_timestamp a <= rc_timestamp b)
    (map change_columns l).
Proof.
  unfold Sql.sorted_by.
  induction 1 as [|x l Hl IH Hx]; simpl; constructor; [exact IH|].
  apply Forall_map. eapply Forall_impl; [|exact Hx].
  intros y Hy. unfold Sql.asc in Hy. lia.
Qed.

Lemma change_matches_unfiltered (characterId : Z) (bracket : option string)
  (r : RatingChangeRow) :
  bracket_given bracket = None ->
  change_matches characterId bracket r = (change_character_id r =? characterId).
Proof. unfold change_matches. intros ->. apply andb_true_r. Qed.

Lemma bracket_given_nonempty (b : string) :
  b <> "" -> bracket_given (Some b) = Some b.
Proof.
  intros Hb. simpl. destruct (String.eqb_spec b ""); [contradiction | reflexivity].
Qed.

(** C8, as the code has it: the history of a character is the list of all
    its ledger entries in non-decreasing timestamp order; for a bracket
    name that is not the empty string, the query with that bracket returns
    exactly the entries of the history that carry the bracket, in the order
    they have in the history; the empty string counts as no bracket and
    returns the whole history. *)
Theorem getRatingChanges_ordered (w : World) (characterId : Z) (bracket : string) :
  bracket <> "" ->
  exists history,
    getRatingChanges characterId None w = (Normal history, w)
    /\ Permutation history
         (map change_columns
            (filter (fun r => change_character_id r =? characterId)
               (rating_changes (db w))))
    /\ StronglySorted (fun a b => rc_timestamp a <= rc_timestamp b) history
    /\ getRatingChanges characterId (Some bracket) w
       = (Normal (filter (fun r => (rc_bracket r =? bracket)%string) history), w)
    /\ getRatingChanges characterId (Some "") w = (Normal history, w).
Proof.
  intros Hb.
  eexists. split; [reflexivity|].
  unfold select_rating_changes.
  rewrite (filter_ext _ _
             (fun r => change_matches_unfiltered characterId None r eq_refl)).
  split; [apply Permutation_map, order_by_perm|].
  split; [apply sorted_columns, order_by_sorted;
          [apply asc_total | apply asc_trans]|].
  split.
  - unfold getRatingChanges, query, select_rating_changes.
    do 2 f_equal.
    rewrite filter_map_commute. f_equal.
    rewrite (filter_order_by _ (asc_total _) (asc_trans _)).
    f_equal. rewrite filter_twice. apply filter_ext.
    intros r. unfold change_matches. rewrite (bracket_given_nonempty _ Hb).
    reflexivity.
  - unfold getRatingChanges, query, select_rating_changes.
    rewrite (filter_ext _ _
               (fun r => change_matches_unfiltered characterId (Some "") r eq_refl)).
    reflexivity.
Qed.

Lemma getRatingChanges_ordered_witness :
  let w := two_brackets in
  "blitz-priest-shadow" <> ""
  /\ exists history,
      getRatingChanges 1 None w = (Normal history, w)
      /\ Permutation history
           (map change_columns
              (filter (fun r => change_character_id r =? 1)
                 (rating_changes (db w))))
      /\ StronglySorted (fun a b => rc_timestamp a <= rc_timestamp b) history
      /\ getRatingChanges 1 (Some "blitz-priest-shadow") w
         = (Normal (filter (fun r => (rc_bracket r =? "blitz-priest-shadow")%string)
                      history), w)
      /\ getRatingChanges 1 (Some "") w = (Normal history, w).
Proof.
  intros w.
  assert (Hb : "blitz-priest-shadow" <> "") by discriminate.
  split; [exact Hb|].
  exact (getRatingChanges_ordered w 1 "blitz-priest-shadow" Hb).
Defined.

(** The claim of C8 at the empty bracket name: the history of character 1
    holds entries of two brackets, none of them named by the empty string,
    and the query for the empty string returns all of them instead of
    none. *)
Lemma getRatingChanges_empty_bracket_unfiltered :
  let w := two_brackets in
  exists history,
    getRatingChanges 1 None w = (Normal history, w)
    /\ map rc_bracket history
       = ["shuffle-priest-shadow"; "blitz-priest-shadow"; "shuffle-priest-shadow"]
    /\ getRatingChanges 1 (Some "") w
       <> (Normal (filter (fun r => (rc_bracket r =? "")%string) history), w).
Proof.
  intros w. eexists. split; [reflexivity|]. split; [vm_compute; reflexivity|].
  vm_compute. discriminate.
Qed.

(** ** The ledger invariant *)

Section Preservation.

Context (P : Db -> Prop).

Lemma preserves_ret {A} (a : A) : preserves P (ret a).
Proof. intros w Hw. exact Hw. Qed.

Lemma preserves_throw {A} (e : Exn) : preserves P (@throw A e).
Proof. intros w Hw. exact Hw. Qed.

Lemma preserves_bind {A B} (c : M A) (k : A -> M B) :
  preserves P c -> (forall a, preserves P (k a)) -> preserves P (bind c k).
Proof.
  intros Hc Hk w Hw. unfold bind.
  specialize (Hc w Hw). destruct (c w) as [[a|e] w']; simpl in *.
  - apply Hk, Hc.
  - exact Hc.
Qed.

Lemma preserves_try_catch {A} (c : M A) (handler : Exn -> M A) :
  preserves P c -> (forall e, preserves P (handler e)) ->
  preserves P (try_catch c handler).
Proof.
  intros Hc Hh w Hw. unfold try_catch.
  specialize (Hc w Hw). destruct (c w) as [[a|e] w']; simpl in *.
  - exact Hc.
  - apply Hh, Hc.
Qed.

Lemma preserves_for_of_in {A} (xs : list A) (body : A -> M unit) :
  (forall x, In x xs -> preserves P (body x)) -> preserves P (for_of xs body).
Proof.
  induction xs as [|x xs IH]; simpl; intros Hbody.
  - apply preserves_ret.
  - apply preserves_bind; [apply Hbody; left; reflexivity|].
    intros _. apply IH. intros y Hy. apply Hbody. right. exact Hy.
Qed.

Lemma preserves_for_of {A} (xs : list A) (body : A -> M unit) :
  (forall x, preserves P (body x)) -> preserves P (for_of xs body).
Proof. intros Hbody. apply preserves_for_of_in. intros x _. apply Hbody. Qed.

Lemma preserves_console_log (line : LogLine) : preserves P (console_log line).
Proof. intros w Hw. exact Hw. Qed.

Lemma preserves_getAccessToken (net : Network) : preserves P (getAccessToken net).
Proof.
  unfold getAccessToken.
  destruct (token_endpoint net) as [|ok status [t|]]; try destruct ok; simpl;
    first [apply preserves_ret | apply preserves_throw].
Qed.

Lemma preserves_fetchPvPBracket (net : Network) (token bracket : string) :
  preserves P (fetchPvPBracket net token bracket).
Proof.
  unfold fetchPvPBracket.
  destruct (bracket_endpoint net token bracket) as [|ok status [d|]];
    try destruct ok; simpl; try destruct (status =? 404);
    first [apply preserves_ret | apply preserves_throw].
Qed.

End Preservation.

Lemma getOrCreateCharacter_keeps_ledger `{CaseFolding}
  (name realm_slug v_region : string) :
  preserves ledger_ok (getOrCreateCharacter name realm_slug v_region).
Proof.
  intros w Hw. unfold getOrCreateCharacter, run, query, bind, ret, throw. simpl.
  assert (Hsame : rating_changes
                    (insert_or_ignore_character (toLowerCase name)
                       (toLowerCase realm_slug) (toLowerCase v_region) (db w))
                  = rating_changes (db w)).
  { unfold insert_or_ignore_character.
    destruct (existsb _ (characters (db w))); reflexivity. }
  destruct (Sql.get _); simpl; unfold ledger_ok; rewrite Hsame; exact Hw.
Qed.

Lemma processSnapshot_keeps_ledger (characterId : Z) (bracket : string)
  (data : PvPBracketData) :
  preserves ledger_ok (processSnapshot characterId bracket data).
Proof.
  intros w Hw. unfold ledger_ok in *.
  destruct (fk_holds (db w) characterId) eqn:Hfk.
  - destruct (processSnapshot_cases w characterId bracket data Hfk)
      as (r & w' & Hrun & _ & _ & _ & _ & Hcase).
    rewrite Hrun. simpl.
    destruct (Sql.get (select_latest_snapshot characterId bracket (db w)))
      as [last|].
    + destruct (0 <? played (season_match_statistics data) - season_played last)
        eqn:Hdiff; destruct Hcase as (_ & -> & _); [|exact Hw].
      apply Forall_app. split; [exact Hw|].
      constructor; [|constructor].
      apply Z.ltb_lt in Hdiff. split; [exact Hdiff | reflexivity].
    + destruct Hcase as (_ & -> & _). exact Hw.
  - destruct (processSnapshot_unknown_character w characterId bracket data Hfk)
      as (e & w' & Hrun & Hdb).
    rewrite Hrun. simpl. rewrite Hdb. exact Hw.
Qed.

Lemma pollBracket_keeps_ledger (net : Network) (token : string) (characterId : Z)
  (bracket : string) :
  preserves ledger_ok (pollBracket net token characterId bracket).
Proof.
  unfold pollBracket.
  apply preserves_bind; [apply preserves_fetchPvPBracket|].
  intros [data|]; [|apply preserves_console_log].
  apply preserves_bind; [apply preserves_console_log|]. intros _.
  apply preserves_bind; [apply processSnapshot_keeps_ledger|]. intros r.
  destruct (changed r); [apply preserves_console_log | apply preserves_ret].
Qed.

Lemma pollOnceWith_keeps_ledger `{CaseFolding} (cfg : Config) (net : Network) :
  preserves ledger_ok (pollOnceWith cfg net).
Proof.
  unfold pollOnceWith.
  apply preserves_bind; [apply preserves_console_log|]. intros _.
  apply preserves_try_catch; [|intros e; apply preserves_console_log].
  apply preserves_bind; [apply preserves_getAccessToken|]. intros token.
  apply preserves_bind; [apply getOrCreateCharacter_keeps_ledger|]. intros id.
  apply preserves_for_of. intros bracket. apply pollBracket_keeps_ledger.
Qed.

Lemma first_seen_reachable (clk : nat -> timestamp) : reachable (first_seen clk).
Proof.
  unfold first_seen, registered.
  apply reach_processSnapshot, reach_getOrCreateCharacter, reach_initial.
Qed.

(** After the first fetch of the scenario (rating 1500, ten games), any
    fetch with more games leaves a ledger row with its rating difference. *)
Lemma scenario_change_reached (v_rating v_played v_won v_lost : Z) :
  10 < v_played ->
  exists w r,
    reachable w /\ In r (rating_changes (db w))
    /\ rating_change (change_columns r) = v_rating - 1500.
Proof.
  intros Hplayed.
  set (w0 := first_seen every_five_minutes).
  set (data := bracket_data v_rating v_played v_won v_lost).
  assert (Hfk : fk_holds (db w0) 1 = true) by reflexivity.
  destruct (processSnapshot_cases w0 1 "shuffle-priest-shadow" data Hfk)
    as (r & w' & Hrun & _ & _ & _ & _ & Hcase).
  replace (Sql.get (select_latest_snapshot 1 "shuffle-priest-shadow" (db w0)))
    with (Some (first_snapshot every_five_minutes)) in Hcase by reflexivity.
  replace (0 <? played (season_match_statistics data)
                - season_played (first_snapshot every_five_minutes))
    with true in Hcase by (symmetry; apply Z.ltb_lt; simpl; lia).
  destruct Hcase as (_ & Hledger & _).
  exists (snd (processSnapshot 1 "shuffle-priest-shadow" data w0)).
  eexists. split; [apply reach_processSnapshot, first_seen_reachable|].
  rewrite Hrun. simpl snd. rewrite Hledger.
  split; [apply in_or_app; right; left; reflexivity | reflexivity].
Qed.

(** C7: in every state the program reaches, each ledger row has
    [games_played > 0] and [rating_change = new_rating - old_rating]; and
    rows with a positive, a negative and a zero [rating_change] are all
    reached. *)
Theorem ledger_invariant :
  (forall (CF : CaseFolding) (w : World),
      reachable w -> Forall change_ok (rating_changes (db w)))
  /\ (exists w r, reachable w /\ In r (rating_changes (db w))
                  /\ 0 < rating_change (change_columns r))
  /\ (exists w r, reachable w /\ In r (rating_changes (db w))
                  /\ rating_change (change_columns r) < 0)
  /\ (exists w r, reachable w /\ In r (rating_changes (db w))
                  /\ rating_change (change_columns r) = 0).
Proof.
  split.
  { intros CF w Hw. change (ledger_ok (db w)).
    induction Hw as [fk clk | w n r g Hw IH | w c b d Hw IH | w cfg net Hw IH].
    - constructor.
    - exact (getOrCreateCharacter_keeps_ledger n r g w IH).
    - exact (processSnapshot_keeps_ledger c b d w IH).
    - exact (pollOnceWith_keeps_ledger cfg net w IH). }
  split; [|split].
  - destruct (scenario_change_reached 1516 12 7 5) as (w & r & Hw & Hr & Hc);
      [lia|]. exists w, r. repeat split; [exact Hw | exact Hr | lia].
  - destruct (scenario_change_reached 1490 12 6 6) as (w & r & Hw & Hr & Hc);
      [lia|]. exists w, r. repeat split; [exact Hw | exact Hr | lia].
  - destruct (scenario_change_reached 1500 12 7 5) as (w & r & Hw & Hr & Hc);
      [lia|]. exists w, r. repeat split; [exact Hw | exact Hr | lia].
Qed.

Lemma ledger_invariant_witness :
  reachable two_brackets
  /\ Forall change_ok (rating_changes (db two_brackets)).
Proof.
  assert (Hreach : reachable two_brackets).
  { unfold two_brackets, second_seen.
    do 4 apply reach_processSnapshot. apply first_seen_reachable. }
  split; [exact Hreach|].
  exact (proj1 ledger_invariant AsciiFolding two_brackets Hreach).
Defined.

(** ** One polling cycle *)

Lemma getOrCreateCharacter_returns `{CaseFolding} (name realm_slug v_region : string)
  (w : World) :
  exists id w1,
    getOrCreateCharacter name realm_slug v_region w = (Normal id, w1)
    /\ console w1 = console w
    /\ pvp_snapshots (db w1) = pvp_snapshots (db w).
Proof.
  unfold getOrCreateCharacter, run, query, bind, ret, throw. simpl.
  destruct (insert_or_ignore_then_select (toLowerCase name)
              (toLowerCase realm_slug) (toLowerCase v_region) (db w))
    as (row & Hsel & _).
  cbv zeta in Hsel. rewrite Hsel.
  do 2 eexists. split; [reflexivity|]. simpl. split; [reflexivity|].
  unfold insert_or_ignore_character.
  destruct (existsb _ (characters (db w))); reflexivity.
Qed.

(** The loop stops at the first iteration that throws: the elements after
    it are not visited. *)
Lemma for_of_cut {A} (body : A -> M unit) (pre post : list A) (x : A) (w : World) :
  (forall w1, exists e, body x w1 = (Throw e, w1)) ->
  (exists e w', for_of (pre ++ x :: post) body w = (Throw e, w'))
  /\ for_of (pre ++ x :: post) body w = for_of (pre ++ [x]) body w.
Proof.
  intros Hx. revert w. induction pre as [|y pre IH]; intros w; simpl; unfold bind.
  - destruct (Hx w) as (e & ->). split; [do 2 eexists|]; reflexivity.
  - destruct (body y w) as [[[]|e] w1].
    + apply IH.
    + split; [do 2 eexists|]; reflexivity.
Qed.

Lemma pollBracket_fetch_throws (net : Network) (token : string) (characterId : Z)
  (bracket : string) :
  fetch_throws net token bracket = true ->
  forall w, exists e, pollBracket net token characterId bracket w = (Throw e, w).
Proof.
  unfold fetch_throws, pollBracket, fetchPvPBracket, bind. intros Hf w.
  destruct (bracket_endpoint net token bracket) as [|ok status [d|]];
    try destruct ok; simpl in *; try discriminate;
    try (destruct (status =? 404); simpl in *; try discriminate);
    eexists; reflexivity.
Qed.

(** Processing one bracket stores nothing under another bracket's name. *)
Lemma processSnapshot_keeps_other_bracket (other : string) (kept : list SnapshotRow)
  (characterId : Z) (bracket : string) (data : PvPBracketData) :
  bracket <> other ->
  preserves
    (fun d => filter (fun s => (snap_bracket s =? other)%string) (pvp_snapshots d)
              = kept)
    (processSnapshot characterId bracket data).
Proof.
  intros Hneq w Hw.
  destruct (fk_holds (db w) characterId) eqn:Hfk.
  - destruct (processSnapshot_cases w characterId bracket data Hfk)
      as (r & w' & Hrun & _ & _ & Hsnaps & _).
    rewrite Hrun. simpl. rewrite Hsnaps, filter_app. simpl.
    destruct (String.eqb_spec bracket other); [contradiction|].
    rewrite app_nil_r. exact Hw.
  - destruct (processSnapshot_unknown_character w characterId bracket data Hfk)
      as (e & w' & Hrun & Hdb).
    rewrite Hrun. simpl. rewrite Hdb. exact Hw.
Qed.

Lemma pollBracket_keeps_other_bracket (other : string) (kept : list SnapshotRow)
  (net : Network) (token : string) (characterId : Z) (bracket : string) :
  bracket <> other ->
  preserves
    (fun d => filter (fun s => (snap_bracket s =? other)%string) (pvp_snapshots d)
              = kept)
    (pollBracket net token characterId bracket).
Proof.
  intros Hneq. unfold pollBracket.
  apply preserves_bind; [apply preserves_fetchPvPBracket|].
  intros [data|]; [|apply preserves_console_log].
  apply preserves_bind; [apply preserves_console_log|]. intros _.
  apply preserves_bind; [apply processSnapshot_keeps_other_bracket, Hneq|].
  intros r.
  destruct (changed r); [apply preserves_console_log | apply preserves_ret].
Qed.

(** C3, as the code has it: the [try] block encloses the whole loop.  When
    the fetch of a bracket throws, the error is caught and logged and
    [pollOnce] returns normally, and the cycle ends there: it is the cycle
    over the brackets up to and including the failing one, and nothing is
    stored for a bracket that does not come before the failing one. *)
Theorem pollOnce_stops_at_failed_fetch `{CaseFolding} (cfg : Config) (net : Network)
  (w : World) (status : Z) (token : string) (pre post : list string)
  (bracket : string) :
  brackets cfg = pre ++ bracket :: post ->
  token_endpoint net = Response true status (Some token) ->
  fetch_throws net token bracket = true ->
  exists w',
    pollOnceWith cfg net w = (Normal tt, w')
    /\ pollOnceWith (with_brackets cfg (pre ++ [bracket])) net w = (Normal tt, w')
    /\ (exists e lines, console w' = lines ++ [LogErrorDuringPoll e])
    /\ (forall later, ~ In later pre -> snapshots_in later w' = snapshots_in later w).
Proof.
  intros Hbrackets Htoken Hthrows.
  assert (Hrun : forall post',
    exists e w2 id w1,
      getOrCreateCharacter (characterName cfg) (realmSlug cfg) (region cfg)
        {| db := db w; console := console w ++ [LogPolling]; clock := clock w;
           ticks := ticks w |} = (Normal id, w1)
      /\ for_of (pre ++ [bracket]) (pollBracket net token id) w1 = (Throw e, w2)
      /\ pollOnceWith (with_brackets cfg (pre ++ bracket :: post')) net w
         = (Normal tt,
            {| db := db w2; console := console w2 ++ [LogErrorDuringPoll e];
               clock := clock w2; ticks := ticks w2 |})).
  { intros post'.
    destruct (getOrCreateCharacter_returns (characterName cfg) (realmSlug cfg)
                (region cfg)
                {| db := db w; console := console w ++ [LogPolling];
                   clock := clock w; ticks := ticks w |})
      as (id & w1 & Hid & _ & _).
    destruct (for_of_cut (pollBracket net token id) pre post' bracket w1
                (pollBracket_fetch_throws net token id bracket Hthrows))
      as ((e & w2 & Hloop) & Hcut).
    exists e, w2, id, w1. split; [exact Hid|].
    split; [rewrite <- Hcut; exact Hloop|].
    unfold pollOnceWith, try_catch, getAccessToken, bind, console_log, ret.
    simpl. rewrite Htoken. simpl. rewrite Hid, Hloop. reflexivity. }
  destruct (Hrun post) as (e & w2 & id & w1 & Hid & Hloop & Hfull).
  destruct (Hrun []) as (e' & w2' & id' & w1' & Hid' & Hloop' & Hcutrun).
  rewrite Hid in Hid'. injection Hid' as <- <-.
  rewrite Hloop in Hloop'. injection Hloop' as <- <-.
  assert (Hcfg : with_brackets cfg (pre ++ bracket :: post) = cfg)
    by (rewrite <- Hbrackets; destruct cfg; reflexivity).
  rewrite Hcfg in Hfull.
  eexists. split; [exact Hfull|]. split; [exact Hcutrun|].
  split; [do 2 eexists; reflexivity|].
  intros later Hlater. unfold snapshots_in. simpl.
  assert (Hw1 : filter (fun s => (snap_bracket s =? later)%string)
                  (pvp_snapshots (db w1))
                = filter (fun s => (snap_bracket s =? later)%string)
                    (pvp_snapshots (db w))).
  { destruct (getOrCreateCharacter_returns (characterName cfg) (realmSlug cfg)
                (region cfg)
                {| db := db w; console := console w ++ [LogPolling];
                   clock := clock w; ticks := ticks w |})
      as (id0 & w10 & Hid0 & _ & Hsn).
    rewrite Hid in Hid0. injection Hid0 as <- <-. rewrite Hsn. reflexivity. }
  rewrite <- Hw1.
  change w2 with (snd (Throw (A := unit) e, w2)). rewrite <- Hloop.
  apply (preserves_for_of_in
           (fun d => filter (fun s => (snap_bracket s =? later)%string)
                       (pvp_snapshots d)
                     = filter (fun s => (snap_bracket s =? later)%string)
                         (pvp_snapshots (db w1))));
    [|reflexivity].
  intros x Hx. apply in_app_or in Hx. destruct Hx as [Hx|[<-|[]]].
  - apply pollBracket_keeps_other_bracket. intros ->. contradiction.
  - intros w0 Hw0.
    destruct (pollBracket_fetch_throws net token id bracket Hthrows w0)
      as (e0 & ->).
    exact Hw0.
Qed.

Lemma pollOnce_stops_at_failed_fetch_witness :
  let w := initial_world true every_five_minutes in
  brackets CONFIG = [] ++ "shuffle-priest-shadow" :: ["blitz-priest-shadow"]
  /\ token_endpoint shuffle_down = Response true 200 (Some "token")
  /\ fetch_throws shuffle_down "token" "shuffle-priest-shadow" = true
  /\ exists w',
      pollOnceWith CONFIG shuffle_down w = (Normal tt, w')
      /\ pollOnceWith (with_brackets CONFIG ([] ++ ["shuffle-priest-shadow"]))
           shuffle_down w = (Normal tt, w')
      /\ (exists e lines, console w' = lines ++ [LogErrorDuringPoll e])
      /\ (forall later, ~ In later [] ->
                        snapshots_in later w' = snapshots_in later w).
Proof.
  intros w.
  split; [reflexivity|]. split; [reflexivity|]. split; [reflexivity|].
  exact (pollOnce_stops_at_failed_fetch CONFIG shuffle_down w 200 "token"
           [] ["blitz-priest-shadow"] "shuffle-priest-shadow"
           eq_refl eq_refl eq_refl).
Defined.

(** The claim of C3 at the tracker's own configuration: the shuffle fetch
    fails with status 500 while the API would serve the blitz bracket.  The
    cycle logs the error and ends; blitz, the bracket after the failing
    one, is neither fetched (no console line names it) nor processed (no
    snapshot is stored). *)
Lemma pollOnce_failed_fetch_skips_later_bracket :
  let w := initial_world true every_five_minutes in
  let w' := snd (pollOnce shuffle_down w) in
  brackets CONFIG = ["shuffle-priest-shadow"; "blitz-priest-shadow"]
  /\ fetch_throws shuffle_down "token" "shuffle-priest-shadow" = true
  /\ fetchPvPBracket shuffle_down "token" "blitz-priest-shadow" w'
     = (Normal (Some (bracket_data 1800 40 22 18)), w')
  /\ console w'
     = [LogPolling;
        LogErrorDuringPoll
          (Error "Failed to fetch bracket shuffle-priest-shadow" 500)]
  /\ pvp_snapshots (db w') = []
  /\ ~ (exists s, In s (pvp_snapshots (db w'))
                  /\ snap_bracket s = "blitz-priest-shadow").
Proof.
  cbv zeta. repeat apply conj; try (vm_compute; reflexivity).
  intros (s & Hin & _). vm_compute in Hin. exact Hin.
Qed.

(** ** Runs *)

(** The end-to-end scenario with polls five minutes apart: the first fetch
    stores a snapshot and no change; the second stores a snapshot and the
    change (+16 over two games, one won, one lost); the third, with the same
    values, stores a snapshot and no change. *)
Example end_to_end_scenario :
  let w1 := first_seen every_five_minutes in
  let w2 := second_seen every_five_minutes in
  let third := processSnapshot 1 "shuffle-priest-shadow" (bracket_data 1516 12 7 5) w2 in
  fst (processSnapshot 1 "shuffle-priest-shadow" (bracket_data 1500 10 6 4)
         (registered every_five_minutes))
  = Normal {| changed := false; ratingChange := None |}
  /\ rating_changes (db w1) = []
  /\ fst (processSnapshot 1 "shuffle-priest-shadow" (bracket_data 1516 12 7 5) w1)
     = Normal {| changed := true; ratingChange := Some 16 |}
  /\ map change_columns (rating_changes (db w2))
     = [{| rc_timestamp := 600; rc_bracket := "shuffle-priest-shadow";
           old_rating := 1500; new_rating := 1516; rating_change := 16;
           games_played := 2; games_won := 1; games_lost := 1 |}]
  /\ fst third = Normal {| changed := false; ratingChange := None |}
  /\ rating_changes (db (snd third)) = rating_changes (db w2)
  /\ map season_played (pvp_snapshots (db (snd third))) = [10; 12; 12].
Proof. cbv zeta. repeat apply conj; vm_compute; reflexivity. Qed.

(** A 404 is not a failure: the bracket is skipped and the loop goes on to
    the next one. *)
Example pollOnce_not_found_continues :
  let w' := snd (pollOnce shuffle_not_found (initial_world true every_five_minutes)) in
  console w'
  = [LogPolling; LogNoData "shuffle-priest-shadow";
     LogBracket "blitz-priest-shadow" 1800 40;
     LogFirstSnapshot "blitz-priest-shadow"]
  /\ map snap_bracket (pvp_snapshots (db w')) = ["blitz-priest-shadow"].
Proof. cbv zeta. split; vm_compute; reflexivity. Qed.

(** A call on an identifier the enforced foreign key rejects throws before
    anything is stored. *)
Example processSnapshot_foreign_key :
  processSnapshot 7 "shuffle-priest-shadow" (bracket_data 1500 10 6 4)
    (registered every_five_minutes)
  = (Throw (SqliteError "FOREIGN KEY constraint failed"),
     {| db := db (registered every_five_minutes); console := [];
        clock := every_five_minutes; ticks := 1 |}).
Proof. vm_compute. reflexivity. Qed.

(* ===================================================================== *)
(** * Part III.  Further properties of the code                           *)
(* ===================================================================== *)

(** ** What the writers do to the database *)

Lemma getOrCreateCharacter_db `{CaseFolding} (name realm_slug v_region : string)
  (w : World) :
  db (snd (getOrCreateCharacter name realm_slug v_region w))
  = insert_or_ignore_character (toLowerCase name) (toLowerCase realm_slug)
      (toLowerCase v_region) (db w).
Proof.
  unfold getOrCreateCharacter, run, query, bind, ret, throw. simpl.
  destruct (Sql.get _); reflexivity.
Qed.

(** The row behind the answer of [getOrCreateCharacter]. *)
Lemma getOrCreateCharacter_row `{CaseFolding} (name realm_slug v_region : string)
  (w : World) :
  exists row w1,
    getOrCreateCharacter name realm_slug v_region w = (Normal (char_id row), w1)
    /\ db w1 = insert_or_ignore_character (toLowerCase name)
                 (toLowerCase realm_slug) (toLowerCase v_region) (db w)
    /\ console w1 = console w /\ clock w1 = clock w /\ ticks w1 = ticks w
    /\ In row (characters (db w1))
    /\ character_key row = folded_key name realm_slug v_region.
Proof.
  destruct (insert_or_ignore_then_select (toLowerCase name)
              (toLowerCase realm_slug) (toLowerCase v_region) (db w))
    as (row & Hsel & _ & Hin & Hkey & _).
  cbv zeta in *.
  exists row. eexists.
  unfold getOrCreateCharacter, run, query, bind, ret, throw. simpl.
  rewrite Hsel. split; [reflexivity|]. simpl.
  repeat split; assumption.
Qed.

Lemma processSnapshot_effect (w : World) (characterId : Z) (bracket : string)
  (data : PvPBracketData) :
  let d' := db (snd (processSnapshot characterId bracket data w)) in
  foreign_keys d' = foreign_keys (db w)
  /\ characters d' = characters (db w)
  /\ (d' = db w
      \/ (fk_holds (db w) characterId = true
          /\ pvp_snapshots d'
             = pvp_snapshots (db w) ++ [saved_snapshot w characterId bracket data]
          /\ (rating_changes d' = rating_changes (db w)
              \/ exists last,
                  0 < played (season_match_statistics data) - season_played last
                  /\ rating_changes d'
                     = rating_changes (db w) ++
                       [delta_row
                          (Sql.next_rowid (map change_id (rating_changes (db w))))
                          (clock w (S (ticks w))) characterId bracket last data]))).
Proof.
  cbv zeta.
  destruct (fk_holds (db w) characterId) eqn:Hfk.
  - destruct (processSnapshot_cases w characterId bracket data Hfk)
      as (r & w' & Hrun & Hflag & Hchars & Hsnaps & _ & Hcase).
    rewrite Hrun. simpl.
    split; [exact Hflag|]. split; [exact Hchars|]. right.
    split; [reflexivity|]. split; [exact Hsnaps|].
    destruct (Sql.get (select_latest_snapshot characterId bracket (db w)))
      as [last|].
    + destruct (0 <? played (season_match_statistics data) - season_played last)
        eqn:Hdiff; destruct Hcase as (_ & Hledger & _).
      * right. exists last. split; [apply Z.ltb_lt, Hdiff | exact Hledger].
      * left. exact Hledger.
    + destruct Hcase as (_ & Hledger & _). left. exact Hledger.
  - destruct (processSnapshot_unknown_character w characterId bracket data Hfk)
      as (e & w' & Hrun & Hdb).
    rewrite Hrun. simpl. rewrite Hdb. repeat split. left. reflexivity.
Qed.

(** A property of the database that both writers keep is kept by a polling
    cycle, and holds in every state the program reaches. *)
Lemma pollOnceWith_preserves `{CaseFolding} (P : Db -> Prop) (cfg : Config)
  (net : Network) :
  (forall n r g, preserves P (getOrCreateCharacter n r g)) ->
  (forall c b d, preserves P (processSnapshot c b d)) ->
  preserves P (pollOnceWith cfg net).
Proof.
  intros Hreg Hproc. unfold pollOnceWith.
  apply preserves_bind; [apply preserves_console_log|]. intros _.
  apply preserves_try_catch; [|intros e; apply preserves_console_log].
  apply preserves_bind; [apply preserves_getAccessToken|]. intros token.
  apply preserves_bind; [apply Hreg|]. intros id.
  apply preserves_for_of. intros bracket. unfold pollBracket.
  apply preserves_bind; [apply preserves_fetchPvPBracket|].
  intros [data|]; [|apply preserves_console_log].
  apply preserves_bind; [apply preserves_console_log|]. intros _.
  apply preserves_bind; [apply Hproc|]. intros r.
  destruct (changed r); [apply preserves_console_log | apply preserves_ret].
Qed.

Lemma reachable_invariant `{CaseFolding} (P : Db -> Prop) :
  (forall fk, P (empty_db fk)) ->
  (forall n r g, preserves P (getOrCreateCharacter n r g)) ->
  (forall c b d, preserves P (processSnapshot c b d)) ->
  forall w, reachable w -> P (db w).
Proof.
  intros Hinit Hreg Hproc w Hw.
  induction Hw as [fk clk | w n r g Hw IH | w c b d Hw IH | w cfg net Hw IH].
  - apply Hinit.
  - exact (Hreg n r g w IH).
  - exact (Hproc c b d w IH).
  - exact (pollOnceWith_preserves P cfg net Hreg Hproc w IH).
Qed.

(** ** Keys *)

Lemma next_rowid_above (ids : list Z) :
  0 < Sql.next_rowid ids /\ Forall (fun i => i < Sql.next_rowid ids) ids.
Proof.
  unfold Sql.next_rowid. induction ids as [|i ids [IH0 IH]]; cbn [fold_right].
  - split; [lia | constructor].
  - split; [lia|]. constructor; [lia|].
    eapply Forall_impl; [|exact IH]. cbv beta. intros j Hj. lia.
Qed.

Lemma StronglySorted_snoc (l : list Z) (x : Z) :
  StronglySorted Z.lt l -> Forall (fun i => i < x) l ->
  StronglySorted Z.lt (l ++ [x]).
Proof.
  induction 1 as [|y l Hl IH Hy]; simpl; intros Hx.
  - repeat constructor.
  - inversion Hx as [|? ? Hyx Hlx]; subst.
    constructor; [apply IH, Hlx|].
    apply Forall_app. split; [exact Hy | repeat constructor; exact Hyx].
Qed.

Lemma rowids_ok_next (ids : list Z) :
  rowids_ok ids -> rowids_ok (ids ++ [Sql.next_rowid ids]).
Proof.
  intros [Hsorted Hpos]. destruct (next_rowid_above ids) as [H0 Habove].
  split.
  - apply StronglySorted_snoc; assumption.
  - apply Forall_app. split; [exact Hpos | repeat constructor; exact H0].
Qed.

Lemma rowids_ok_NoDup (ids : list Z) : rowids_ok ids -> NoDup ids.
Proof.
  intros [Hsorted _]. induction Hsorted as [|x l Hl IH Hx]; constructor.
  - intros Hin. rewrite Forall_forall in Hx. specialize (Hx x Hin). lia.
  - exact IH.
Qed.

Lemma insert_or_ignore_keys_ok (name realm_slug v_region : string) (d : Db) :
  keys_ok d -> keys_ok (insert_or_ignore_character name realm_slug v_region d).
Proof.
  intros (Hids & Huniq & Hsnap & Hchg).
  split; [|split; [apply insert_or_ignore_unique, Huniq|]].
  - unfold insert_or_ignore_character.
    destruct (existsb _ (characters d)); [exact Hids|]. simpl.
    rewrite map_app. simpl. apply rowids_ok_next, Hids.
  - unfold insert_or_ignore_character.
    destruct (existsb _ (characters d)); split; assumption.
Qed.

Lemma processSnapshot_keys_ok (characterId : Z) (bracket : string)
  (data : PvPBracketData) :
  preserves keys_ok (processSnapshot characterId bracket data).
Proof.
  intros w (Hids & Huniq & Hsnap & Hchg).
  destruct (processSnapshot_effect w characterId bracket data)
    as (_ & Hchars & [Hsame | (_ & Hsnaps & Hledger)]).
  - rewrite Hsame. exact (conj Hids (conj Huniq (conj Hsnap Hchg))).
  - unfold keys_ok, unique_characters. rewrite Hchars, Hsnaps.
    split; [exact Hids|]. split; [exact Huniq|]. split.
    + rewrite map_app. simpl. apply rowids_ok_next, Hsnap.
    + destruct Hledger as [-> | (last & _ & ->)]; [exact Hchg|].
      rewrite map_app. simpl. apply rowids_ok_next, Hchg.
Qed.

Lemma reachable_keys_ok_aux `{CaseFolding} (w : World) :
  reachable w -> keys_ok (db w).
Proof.
  apply (reachable_invariant keys_ok).
  - intros fk. unfold keys_ok, rowids_ok, unique_characters. simpl.
    repeat split; constructor.
  - intros n r g w0 H0. rewrite getOrCreateCharacter_db.
    apply insert_or_ignore_keys_ok, H0.
  - apply processSnapshot_keys_ok.
Qed.

(** X1: in every state the program reaches, the rowids of each table are
    positive and strictly increasing along the table (so no two rows of a
    table share an identifier), and no two characters share their
    (name, realm, region). *)
Theorem reachable_keys_ok `{CaseFolding} (w : World) :
  reachable w ->
  keys_ok (db w)
  /\ NoDup (map char_id (characters (db w)))
  /\ NoDup (map snap_id (pvp_snapshots (db w)))
  /\ NoDup (map change_id (rating_changes (db w))).
Proof.
  intros Hw. pose proof (reachable_keys_ok_aux w Hw) as Hkeys.
  split; [exact Hkeys|].
  destruct Hkeys as (Hc & _ & Hs & Hr).
  repeat split; apply rowids_ok_NoDup; assumption.
Qed.

Lemma two_brackets_reachable : reachable two_brackets.
Proof.
  unfold two_brackets, second_seen.
  do 4 apply reach_processSnapshot. apply first_seen_reachable.
Qed.

Lemma reachable_keys_ok_witness :
  reachable two_brackets
  /\ keys_ok (db two_brackets)
  /\ NoDup (map char_id (characters (db two_brackets)))
  /\ NoDup (map snap_id (pvp_snapshots (db two_brackets)))
  /\ NoDup (map change_id (rating_changes (db two_brackets))).
Proof.
  split; [exact two_brackets_reachable|].
  exact (reachable_keys_ok two_brackets two_brackets_reachable).
Defined.

(** ** Referential integrity *)

Lemma character_known_app (d d' : Db) (cs : list CharacterRow) (id : Z) :
  characters d' = characters d ++ cs ->
  character_known d id = true -> character_known d' id = true.
Proof.
  unfold character_known. intros -> H. rewrite existsb_app, H. reflexivity.
Qed.

Lemma insert_or_ignore_characters (name realm_slug v_region : string) (d : Db) :
  foreign_keys (insert_or_ignore_character name realm_slug v_region d)
  = foreign_keys d
  /\ (exists cs,
        characters (insert_or_ignore_character name realm_slug v_region d)
        = characters d ++ cs)
  /\ pvp_snapshots (insert_or_ignore_character name realm_slug v_region d)
     = pvp_snapshots d
  /\ rating_changes (insert_or_ignore_character name realm_slug v_region d)
     = rating_changes d.
Proof.
  unfold insert_or_ignore_character.
  destruct (existsb _ (characters d)); simpl; repeat split.
  - exists []. symmetry. apply app_nil_r.
  - eexists. reflexivity.
Qed.

(** X2: with the foreign keys enforced, every stored snapshot and every
    ledger row names a character that is in the characters table, in every
    state the program reaches. *)
Theorem reachable_references_ok `{CaseFolding} (w : World) :
  reachable w ->
  foreign_keys (db w) = true ->
  references_ok (db w).
Proof.
  intros Hw.
  apply (reachable_invariant
           (fun d => foreign_keys d = true -> references_ok d)); [| | |exact Hw].
  - intros fk _. split; constructor.
  - intros n r g w0 H0. rewrite getOrCreateCharacter_db.
    destruct (insert_or_ignore_characters (toLowerCase n) (toLowerCase r)
                (toLowerCase g) (db w0)) as (Hfk & (cs & Hcs) & Hs & Hr).
    rewrite Hfk. intros Hon. destruct (H0 Hon) as [H1 H2].
    unfold references_ok. rewrite Hs, Hr. split.
    + eapply Forall_impl; [|exact H1]. intros s. apply (character_known_app _ _ cs _ Hcs).
    + eapply Forall_impl; [|exact H2]. intros s. apply (character_known_app _ _ cs _ Hcs).
  - intros c b d w0 H0.
    destruct (processSnapshot_effect w0 c b d)
      as (Hfk & Hchars & [Hsame | (Hholds & Hsnaps & Hledger)]).
    + rewrite Hsame. exact H0.
    + rewrite Hfk. intros Hon. destruct (H0 Hon) as [H1 H2].
      assert (Hknown : character_known (db w0) c = true).
      { unfold fk_holds in Hholds. rewrite Hon in Hholds. exact Hholds. }
      assert (Hsame_known : forall id,
                character_known (db (snd (processSnapshot c b d w0))) id
                = character_known (db w0) id).
      { intros id. unfold character_known. rewrite Hchars. reflexivity. }
      unfold references_ok. rewrite Hsnaps. split.
      * apply Forall_app. split.
        -- eapply Forall_impl; [|exact H1]. intros s Hs. rewrite Hsame_known. exact Hs.
        -- repeat constructor. simpl. rewrite Hsame_known. exact Hknown.
      * destruct Hledger as [-> | (last & _ & ->)].
        -- eapply Forall_impl; [|exact H2]. intros s Hs. rewrite Hsame_known. exact Hs.
        -- apply Forall_app. split.
           ++ eapply Forall_impl; [|exact H2]. intros s Hs.
              rewrite Hsame_known. exact Hs.
           ++ repeat constructor. simpl. rewrite Hsame_known. exact Hknown.
Qed.

Lemma reachable_references_ok_witness :
  reachable two_brackets
  /\ foreign_keys (db two_brackets) = true
  /\ references_ok (db two_brackets).
Proof.
  split; [exact two_brackets_reachable|]. split; [reflexivity|].
  exact (reachable_references_ok two_brackets two_brackets_reachable eq_refl).
Defined.

(** ** Identifiers of different characters *)

Lemma NoDup_map_injective {A B} (f : A -> B) (l : list A) (a b : A) :
  NoDup (map f l) -> In a l -> In b l -> f a = f b -> a = b.
Proof.
  induction l as [|x l IH]; simpl; intros Hnd Ha Hb Hf; [contradiction|].
  inversion Hnd as [|? ? Hx Hl]; subst.
  destruct Ha as [<-|Ha], Hb as [<-|Hb].
  - reflexivity.
  - exfalso. apply Hx. rewrite Hf. apply in_map, Hb.
  - exfalso. apply Hx. rewrite <- Hf. apply in_map, Ha.
  - apply IH; assumption.
Qed.

(** X3: from a state the program reaches, two characters whose lower-cased
    (name, realm, region) differ get different identifiers. *)
Theorem getOrCreateCharacter_distinct `{CaseFolding} (w : World)
  (name realm_slug v_region name' realm_slug' v_region' : string) :
  reachable w ->
  folded_key name realm_slug v_region <> folded_key name' realm_slug' v_region' ->
  exists id id' w1 w2,
    getOrCreateCharacter name realm_slug v_region w = (Normal id, w1)
    /\ getOrCreateCharacter name' realm_slug' v_region' w1 = (Normal id', w2)
    /\ id <> id'.
Proof.
  intros Hw Hkeys.
  destruct (getOrCreateCharacter_row name realm_slug v_region w)
    as (row & w1 & Hrun1 & Hdb1 & _ & _ & _ & Hin1 & Hkey1).
  destruct (getOrCreateCharacter_row name' realm_slug' v_region' w1)
    as (row' & w2 & Hrun2 & Hdb2 & _ & _ & _ & Hin2 & Hkey2).
  exists (char_id row), (char_id row'), w1, w2.
  split; [exact Hrun1|]. split; [exact Hrun2|].
  intros Heq.
  assert (Hreach : reachable w2).
  { replace w2 with (snd (getOrCreateCharacter name' realm_slug' v_region' w1))
      by (rewrite Hrun2; reflexivity).
    apply reach_getOrCreateCharacter.
    replace w1 with (snd (getOrCreateCharacter name realm_slug v_region w))
      by (rewrite Hrun1; reflexivity).
    apply reach_getOrCreateCharacter, Hw. }
  destruct (reachable_keys_ok_aux w2 Hreach) as (Hids & _).
  assert (Hin1' : In row (characters (db w2))).
  { rewrite Hdb2.
    destruct (insert_or_ignore_characters (toLowerCase name')
                (toLowerCase realm_slug') (toLowerCase v_region') (db w1))
      as (_ & (cs & ->) & _).
    apply in_or_app. left. exact Hin1. }
  assert (row = row')
    by (apply (NoDup_map_injective char_id (characters (db w2)));
        [apply rowids_ok_NoDup, Hids | assumption..]).
  subst row'. apply Hkeys. rewrite <- Hkey1, <- Hkey2. reflexivity.
Qed.

Lemma getOrCreateCharacter_distinct_witness :
  let w := registered every_five_minutes in
  reachable w
  /\ folded_key "Bigbrainwiz" "MalGanis" "US" <> folded_key "Bigbrainwiz" "Area-52" "US"
  /\ exists id id' w1 w2,
      getOrCreateCharacter "Bigbrainwiz" "MalGanis" "US" w = (Normal id, w1)
      /\ getOrCreateCharacter "Bigbrainwiz" "Area-52" "US" w1 = (Normal id', w2)
      /\ id <> id'.
Proof.
  intros w.
  assert (Hreach : reachable w)
    by (apply reach_getOrCreateCharacter, reach_initial).
  assert (Hkeys : folded_key "Bigbrainwiz" "MalGanis" "US"
                  <> folded_key "Bigbrainwiz" "Area-52" "US")
    by (vm_compute; discriminate).
  split; [exact Hreach|]. split; [exact Hkeys|].
  exact (getOrCreateCharacter_distinct w "Bigbrainwiz" "MalGanis" "US"
           "Bigbrainwiz" "Area-52" "US" Hreach Hkeys).
Defined.

(** ** Append-only storage *)

Lemma extends_refl (d : Db) : extends d d.
Proof.
  split; [reflexivity|].
  repeat split; exists []; symmetry; apply app_nil_r.
Qed.

Lemma extends_trans (d1 d2 d3 : Db) :
  extends d1 d2 -> extends d2 d3 -> extends d1 d3.
Proof.
  intros (Hf1 & (c1 & Hc1) & (s1 & Hs1) & (r1 & Hr1))
         (Hf2 & (c2 & Hc2) & (s2 & Hs2) & (r2 & Hr2)).
  split; [congruence|].
  repeat split.
  - exists (c1 ++ c2). rewrite Hc2, Hc1, app_assoc. reflexivity.
  - exists (s1 ++ s2). rewrite Hs2, Hs1, app_assoc. reflexivity.
  - exists (r1 ++ r2). rewrite Hr2, Hr1, app_assoc. reflexivity.
Qed.

Lemma grows_same_db {A} (c : M A) :
  (forall w, db (snd (c w)) = db w) -> grows c.
Proof. intros H w. rewrite H. apply extends_refl. Qed.

Lemma grows_bind {A B} (c : M A) (k : A -> M B) :
  grows c -> (forall a, grows (k a)) -> grows (bind c k).
Proof.
  intros Hc Hk w. unfold bind.
  specialize (Hc w). destruct (c w) as [[a|e] w']; simpl in *.
  - eapply extends_trans; [exact Hc | apply Hk].
  - exact Hc.
Qed.

Lemma grows_try_catch {A} (c : M A) (handler : Exn -> M A) :
  grows c -> (forall e, grows (handler e)) -> grows (try_catch c handler).
Proof.
  intros Hc Hh w. unfold try_catch.
  specialize (Hc w). destruct (c w) as [[a|e] w']; simpl in *.
  - exact Hc.
  - eapply extends_trans; [exact Hc | apply Hh].
Qed.

Lemma grows_for_of {A} (xs : list A) (body : A -> M unit) :
  (forall x, grows (body x)) -> grows (for_of xs body).
Proof.
  intros Hbody. induction xs as [|x xs IH]; simpl.
  - apply grows_same_db. reflexivity.
  - apply grows_bind; [apply Hbody | intros _; exact IH].
Qed.

Lemma grows_getOrCreateCharacter `{CaseFolding} (name realm_slug v_region : string) :
  grows (getOrCreateCharacter name realm_slug v_region).
Proof.
  intros w. rewrite getOrCreateCharacter_db.
  destruct (insert_or_ignore_characters (toLowerCase name)
              (toLowerCase realm_slug) (toLowerCase v_region) (db w))
    as (Hfk & Hcs & Hs & Hr).
  split; [exact Hfk|]. split; [exact Hcs|].
  split; [exists []; rewrite Hs | exists []; rewrite Hr];
    symmetry; apply app_nil_r.
Qed.

Lemma grows_processSnapshot (characterId : Z) (bracket : string)
  (data : PvPBracketData) :
  grows (processSnapshot characterId bracket data).
Proof.
  intros w.
  destruct (processSnapshot_effect w characterId bracket data)
    as (Hfk & Hchars & [Hsame | (_ & Hsnaps & Hledger)]).
  - rewrite Hsame. apply extends_refl.
  - split; [exact Hfk|].
    split; [exists []; rewrite Hchars; symmetry; apply app_nil_r|].
    split; [eexists; exact Hsnaps|].
    destruct Hledger as [-> | (last & _ & ->)].
    + exists []. symmetry. apply app_nil_r.
    + eexists. reflexivity.
Qed.

Lemma grows_fetchPvPBracket (net : Network) (token bracket : string) :
  grows (fetchPvPBracket net token bracket).
Proof.
  apply grows_same_db. intros w. unfold fetchPvPBracket.
  destruct (bracket_endpoint net token bracket) as [|ok status [d|]];
    try destruct ok; simpl; try destruct (status =? 404); reflexivity.
Qed.

Lemma grows_getAccessToken (net : Network) : grows (getAccessToken net).
Proof.
  apply grows_same_db. intros w. unfold getAccessToken.
  destruct (token_endpoint net) as [|ok status [t|]]; try destruct ok; reflexivity.
Qed.

(** X4: the store is append-only.  Registering a character, processing a
    snapshot and a whole polling cycle, whether they return or throw, leave
    every row that was stored in place and unchanged: each table afterwards
    is the table before followed by the new rows. *)
Theorem storage_append_only `{CaseFolding} :
  (forall name realm_slug v_region,
      grows (getOrCreateCharacter name realm_slug v_region))
  /\ (forall characterId bracket data,
        grows (processSnapshot characterId bracket data))
  /\ (forall cfg net, grows (pollOnceWith cfg net)).
Proof.
  split; [apply @grows_getOrCreateCharacter|].
  split; [apply grows_processSnapshot|].
  intros cfg net. unfold pollOnceWith.
  apply grows_bind; [apply grows_same_db; reflexivity|]. intros _.
  apply grows_try_catch; [|intros e; apply grows_same_db; reflexivity].
  apply grows_bind; [apply grows_getAccessToken|]. intros token.
  apply grows_bind; [apply grows_getOrCreateCharacter|]. intros id.
  apply grows_for_of. intros bracket. unfold pollBracket.
  apply grows_bind; [apply grows_fetchPvPBracket|].
  intros [data|]; [|apply grows_same_db; reflexivity].
  apply grows_bind; [apply grows_same_db; reflexivity|]. intros _.
  apply grows_bind; [apply grows_processSnapshot|]. intros r.
  destruct (changed r); apply grows_same_db; reflexivity.
Qed.

(** ** Polling cycles *)







Lemma try_catch_log (c : M unit) (line_of : Exn -> LogLine) (w : World) :
  exists w', try_catch c (fun e => console_log (line_of e)) w = (Normal tt, w').
Proof.
  unfold try_catch. destruct (c w) as [[[]|e] w1]; eexists; reflexivity.
Qed.

(** X6: [pollOnce] never throws: whatever the token request, the registry,
    the fetches or the storage do, the cycle returns normally (the timer
    callback never rejects). *)
Theorem pollOnce_never_throws `{CaseFolding} (cfg : Config) (net : Network)
  (w : World) :
  exists w', pollOnceWith cfg net w = (Normal tt, w').
Proof.
  unfold pollOnceWith. unfold bind at 1. unfold console_log at 1.
  cbv beta iota. apply try_catch_log.
Qed.

(** The characters a cycle leaves: those of the registry call when the
    token was obtained, the ones before otherwise. *)
Lemma pollOnceWith_characters `{CaseFolding} (cfg : Config) (net : Network)
  (w : World) :
  characters (db (snd (pollOnceWith cfg net w)))
  = if token_fails net then characters (db w)
    else characters
           (insert_or_ignore_character (toLowerCase (characterName cfg))
              (toLowerCase (realmSlug cfg)) (toLowerCase (region cfg)) (db w)).
Proof.
  destruct (getOrCreateCharacter_row (characterName cfg) (realmSlug cfg)
              (region cfg)
              {| db := db w; console := console w ++ [LogPolling];
                 clock := clock w; ticks := ticks w |})
    as (row & w1 & Hid & Hdb1 & _).
  simpl in Hdb1.
  assert (Hloop : forall token,
            characters (db (snd (for_of (brackets cfg)
                                   (pollBracket net token (char_id row)) w1)))
            = characters (db w1)).
  { intros token.
    apply (preserves_for_of (fun d => characters d = characters (db w1)));
      [|reflexivity].
    intros b. unfold pollBracket.
    apply preserves_bind; [apply preserves_fetchPvPBracket|].
    intros [data|]; [|apply preserves_console_log].
    apply preserves_bind; [apply preserves_console_log|]. intros _.
    apply preserves_bind.
    - intros w0 Hw0.
      destruct (processSnapshot_effect w0 (char_id row) b data) as (_ & -> & _).
      exact Hw0.
    - intros r. destruct (changed r);
        [apply preserves_console_log | apply preserves_ret]. }
  unfold token_fails, pollOnceWith, try_catch, getAccessToken, bind, console_log,
    ret, throw. simpl.
  destruct (token_endpoint net) as [|ok status [token|]]; try destruct ok;
    simpl; try reflexivity.
  rewrite Hid. specialize (Hloop token).
  destruct (for_of (brackets cfg) (pollBracket net token (char_id row)) w1)
    as [[[]|e] w2]; simpl in *; rewrite Hloop, Hdb1; reflexivity.
Qed.

(** X7: when the token request fails, the cycle stores nothing, not even
    the character, and writes the polling line and one error line. *)
Theorem pollOnce_token_failure `{CaseFolding} (cfg : Config) (net : Network)
  (w : World) :
  token_fails net = true ->
  exists e w',
    pollOnceWith cfg net w = (Normal tt, w')
    /\ db w' = db w
    /\ console w' = console w ++ [LogPolling; LogErrorDuringPoll e].
Proof.
  unfold token_fails, pollOnceWith, try_catch, getAccessToken, bind, console_log,
    ret, throw. simpl. intros Hfail.
  destruct (token_endpoint net) as [|ok status [token|]]; try destruct ok;
    simpl; try discriminate;
    do 2 eexists; (split; [reflexivity|]); simpl;
    (split; [reflexivity|]); rewrite <- app_assoc; reflexivity.
Qed.

Lemma pollOnce_token_failure_witness :
  let w := initial_world true every_five_minutes in
  token_fails token_refused = true
  /\ exists e w',
      pollOnceWith CONFIG token_refused w = (Normal tt, w')
      /\ db w' = db w
      /\ console w' = console w ++ [LogPolling; LogErrorDuringPoll e].
Proof.
  intros w. split; [reflexivity|].
  exact (pollOnce_token_failure CONFIG token_refused w eq_refl).
Defined.

(** X8: polling again and again registers the character once: after a
    cycle that obtained its token, no later cycle, whatever the network
    does, adds or changes a character row. *)
Theorem pollOnce_registers_once `{CaseFolding} (cfg : Config) (net net' : Network)
  (w : World) :
  token_fails net = false ->
  characters (db (snd (pollOnceWith cfg net' (snd (pollOnceWith cfg net w)))))
  = characters (db (snd (pollOnceWith cfg net w))).
Proof.
  intros Htoken.
  set (w1 := snd (pollOnceWith cfg net w)).
  assert (Hhas : existsb (same_character (toLowerCase (characterName cfg))
                            (toLowerCase (realmSlug cfg))
                            (toLowerCase (region cfg)))
                   (characters (db w1)) = true).
  { unfold w1. rewrite pollOnceWith_characters, Htoken.
    destruct (insert_or_ignore_then_select (toLowerCase (characterName cfg))
                (toLowerCase (realmSlug cfg)) (toLowerCase (region cfg)) (db w))
      as (row & _ & Hex & _).
    exact Hex. }
  rewrite pollOnceWith_characters.
  destruct (token_fails net'); [reflexivity|].
  unfold insert_or_ignore_character. rewrite Hhas. reflexivity.
Qed.

Lemma pollOnce_registers_once_witness :
  let w := initial_world true every_five_minutes in
  token_fails shuffle_down = false
  /\ characters (db (snd (pollOnceWith CONFIG all_up
                            (snd (pollOnceWith CONFIG shuffle_down w)))))
     = characters (db (snd (pollOnceWith CONFIG shuffle_down w))).
Proof.
  intros w. split; [reflexivity|].
  exact (pollOnce_registers_once CONFIG shuffle_down all_up w eq_refl).
Defined.

(** ** The snapshot store *)

(** X9: [getLatestSnapshot] never throws and writes nothing.  It answers
    [undefined] exactly when no snapshot of the pair is stored; otherwise
    it answers a stored row of that very character and bracket whose
    timestamp no stored row of the pair exceeds. *)
Theorem getLatestSnapshot_selects (w : World) (characterId : Z) (bracket : string) :
  exists found,
    getLatestSnapshot characterId bracket w = (Normal found, w)
    /\ match found with
       | None =>
           forall s, In s (pvp_snapshots (db w)) ->
                     snapshot_of characterId bracket s = false
       | Some s =>
           In s (pvp_snapshots (db w))
           /\ snap_character_id s = characterId
           /\ snap_bracket s = bracket
           /\ forall y, In y (pvp_snapshots (db w)) ->
                        snapshot_of characterId bracket y = true ->
                        snap_timestamp y <= snap_timestamp s
       end.
Proof.
  exists (Sql.get (select_latest_snapshot characterId bracket (db w))).
  split; [apply getLatestSnapshot_reads|].
  destruct (Sql.get (select_latest_snapshot characterId bracket (db w)))
    as [s|] eqn:Hget.
  - assert (Hs : getLatestSnapshot characterId bracket w = (Normal (Some s), w))
      by (rewrite getLatestSnapshot_reads, Hget; reflexivity).
    destruct (getLatestSnapshot_greatest _ _ _ _ Hs)
      as (older & rest & Hsplit & Holder & Hrest).
    assert (Hin : In s (filter (snapshot_of characterId bracket)
                          (pvp_snapshots (db w))))
      by (rewrite Hsplit; apply in_or_app; right; left; reflexivity).
    apply filter_In in Hin. destruct Hin as [Hin Hpair].
    unfold snapshot_of in Hpair. apply andb_true_iff in Hpair.
    destruct Hpair as [Hc Hb]. apply Z.eqb_eq in Hc. apply String.eqb_eq in Hb.
    repeat split; try assumption.
    intros y Hy Hpy.
    assert (Hy' : In y (older ++ s :: rest))
      by (rewrite <- Hsplit; apply filter_In; split; assumption).
    apply in_app_or in Hy'. destruct Hy' as [Hy'|[<-|Hy']].
    + specialize (Holder y Hy'). lia.
    + lia.
    + exact (Hrest y Hy').
  - assert (Hn : getLatestSnapshot characterId bracket w = (Normal None, w))
      by (rewrite getLatestSnapshot_reads, Hget; reflexivity).
    apply getLatestSnapshot_absent in Hn.
    intros s Hs. destruct (snapshot_of characterId bracket s) eqn:Hp; [|reflexivity].
    assert (In s (filter (snapshot_of characterId bracket) (pvp_snapshots (db w))))
      by (apply filter_In; split; assumption).
    rewrite Hn in H. contradiction.
Qed.

Lemma fresh_pair_snapshot (w : World) (characterId : Z) (bracket : string)
  (data : PvPBracketData) :
  snapshot_of characterId bracket (saved_snapshot w characterId bracket data) = true.
Proof.
  unfold snapshot_of. simpl. rewrite Z.eqb_refl, String.eqb_refl. reflexivity.
Qed.

(** X10: save then read.  When the clock reads later than every stored
    snapshot of the pair, the snapshot [saveSnapshot] writes is the one
    [getLatestSnapshot] returns next, with the seven values of the data. *)
Theorem saveSnapshot_then_latest (w : World) (characterId : Z) (bracket : string)
  (data : PvPBracketData) :
  fk_holds (db w) characterId = true ->
  (forall y, In y (pvp_snapshots (db w)) ->
             snapshot_of characterId bracket y = true ->
             snap_timestamp y < clock w (ticks w)) ->
  exists w1 s,
    saveSnapshot characterId bracket data w = (Normal tt, w1)
    /\ getLatestSnapshot characterId bracket w1 = (Normal (Some s), w1)
    /\ stores s data
    /\ snap_timestamp s = clock w (ticks w).
Proof.
  intros Hfk Hnewer.
  unfold saveSnapshot, CURRENT_TIMESTAMP, run_child_insert, run, bind. simpl.
  rewrite Hfk.
  do 2 eexists. split; [reflexivity|].
  split.
  - apply (getLatestSnapshot_newest _ characterId bracket
             (saved_snapshot w characterId bracket data) (pvp_snapshots (db w)));
      [reflexivity | apply fresh_pair_snapshot | exact Hnewer].
  - split; [repeat split | reflexivity].
Qed.

Lemma saveSnapshot_then_latest_witness :
  let w := first_seen every_five_minutes in
  let data := bracket_data 1516 12 7 5 in
  fk_holds (db w) 1 = true
  /\ (forall y, In y (pvp_snapshots (db w)) ->
                snapshot_of 1 "shuffle-priest-shadow" y = true ->
                snap_timestamp y < clock w (ticks w))
  /\ exists w1 s,
      saveSnapshot 1 "shuffle-priest-shadow" data w = (Normal tt, w1)
      /\ getLatestSnapshot 1 "shuffle-priest-shadow" w1 = (Normal (Some s), w1)
      /\ stores s data
      /\ snap_timestamp s = clock w (ticks w).
Proof.
  intros w data.
  assert (Hnewer : forall y, In y (pvp_snapshots (db w)) ->
                     snapshot_of 1 "shuffle-priest-shadow" y = true ->
                     snap_timestamp y < clock w (ticks w)).
  { intros y [<-|[]] _. reflexivity. }
  split; [reflexivity|]. split; [exact Hnewer|].
  exact (saveSnapshot_then_latest w 1 "shuffle-priest-shadow" data eq_refl Hnewer).
Defined.

(** X11: two polls in a row.  When the clock at the first call reads later
    than every stored snapshot of the pair, the second call compares with
    the data of the first call and with nothing older: it reports a change
    exactly when the second data has more season games, with the rating
    difference between the two fetches, and then appends the ledger row of
    the differences between them; with the same data twice it reports and
    writes nothing. *)
Theorem processSnapshot_twice (w : World) (characterId : Z) (bracket : string)
  (first second : PvPBracketData) :
  fk_holds (db w) characterId = true ->
  (forall y, In y (pvp_snapshots (db w)) ->
             snapshot_of characterId bracket y = true ->
             snap_timestamp y < clock w (ticks w)) ->
  exists r1 w1 r2 w2,
    processSnapshot characterId bracket first w = (Normal r1, w1)
    /\ processSnapshot characterId bracket second w1 = (Normal r2, w2)
    /\ changed r2
       = (played (season_match_statistics first)
          <? played (season_match_statistics second))
    /\ (changed r2 = true ->
        ratingChange r2 = Some (rating second - rating first)
        /\ exists rowid now,
            rating_changes (db w2)
            = rating_changes (db w1) ++
              [{| change_id := rowid;
                  change_character_id := characterId;
                  change_columns :=
                    {| rc_timestamp := now;
                       rc_bracket := bracket;
                       old_rating := rating first;
                       new_rating := rating second;
                       rating_change := rating second - rating first;
                       games_played :=
                         played (season_match_statistics second)
                         - played (season_match_statistics first);
                       games_won :=
                         won (season_match_statistics second)
                         - won (season_match_statistics first);
                       games_lost :=
                         lost (season_match_statistics second)
                         - lost (season_match_statistics first) |} |}])
    /\ (changed r2 = false ->
        ratingChange r2 = None
        /\ rating_changes (db w2) = rating_changes (db w1)).
Proof.
  intros Hfk Hnewer.
  destruct (processSnapshot_cases w characterId bracket first Hfk)
    as (r1 & w1 & Hrun1 & Hfk1 & Hchars1 & Hsnaps1 & _ & _).
  assert (Hfk' : fk_holds (db w1) characterId = true).
  { unfold fk_holds, character_known in *. rewrite Hfk1, Hchars1. exact Hfk. }
  destruct (processSnapshot_cases w1 characterId bracket second Hfk')
    as (r2 & w2 & Hrun2 & _ & _ & _ & _ & Hcase).
  assert (Hlatest : getLatestSnapshot characterId bracket w1
                    = (Normal (Some (saved_snapshot w characterId bracket first)), w1)).
  { apply (getLatestSnapshot_newest w1 characterId bracket _ _ Hsnaps1);
      [apply fresh_pair_snapshot | exact Hnewer]. }
  apply getLatestSnapshot_inv in Hlatest. rewrite Hlatest in Hcase.
  simpl in Hcase.
  exists r1, w1, r2, w2. split; [exact Hrun1|]. split; [exact Hrun2|].
  destruct (0 <? played (season_match_statistics second)
                 - played (season_match_statistics first)) eqn:Hdiff;
    destruct Hcase as (-> & Hledger & _); simpl.
  - apply Z.ltb_lt in Hdiff.
    split; [symmetry; apply Z.ltb_lt; lia|].
    split; [|discriminate].
    intros _. split; [reflexivity|]. do 2 eexists. exact Hledger.
  - apply Z.ltb_ge in Hdiff.
    split; [symmetry; apply Z.ltb_ge; lia|].
    split; [discriminate|].
    intros _. split; [reflexivity | exact Hledger].
Qed.

Lemma processSnapshot_twice_witness :
  let w := registered every_five_minutes in
  let first := bracket_data 1500 10 6 4 in
  let second := bracket_data 1516 12 7 5 in
  fk_holds (db w) 1 = true
  /\ (forall y, In y (pvp_snapshots (db w)) ->
                snapshot_of 1 "shuffle-priest-shadow" y = true ->
                snap_timestamp y < clock w (ticks w))
  /\ exists r1 w1 r2 w2,
      processSnapshot 1 "shuffle-priest-shadow" first w = (Normal r1, w1)
      /\ processSnapshot 1 "shuffle-priest-shadow" second w1 = (Normal r2, w2)
      /\ changed r2 = true
      /\ (changed r2 = true ->
          ratingChange r2 = Some 16
          /\ exists rowid now,
              rating_changes (db w2)
              = rating_changes (db w1) ++
                [{| change_id := rowid;
                    change_character_id := 1;
                    change_columns :=
                      {| rc_timestamp := now;
                         rc_bracket := "shuffle-priest-shadow";
                         old_rating := 1500; new_rating := 1516;
                         rating_change := 16; games_played := 2;
                         games_won := 1; games_lost := 1 |} |}])
      /\ (changed r2 = false ->
          ratingChange r2 = None
          /\ rating_changes (db w2) = rating_changes (db w1)).
Proof.
  intros w first second.
  assert (Hnewer : forall y, In y (pvp_snapshots (db w)) ->
                     snapshot_of 1 "shuffle-priest-shadow" y = true ->
                     snap_timestamp y < clock w (ticks w))
    by (intros y []).
  split; [reflexivity|]. split; [exact Hnewer|].
  exact (processSnapshot_twice w 1 "shuffle-priest-shadow" first second
           eq_refl Hnewer).
Defined.

(** ** Independence of the tracked pairs *)

Lemma filter_snoc_false {A} (p : A -> bool) (l : list A) (x : A) :
  p x = false -> filter p (l ++ [x]) = filter p l.
Proof. intros Hx. rewrite filter_app. simpl. rewrite Hx. apply app_nil_r. Qed.

(** X12: tracking is per character and bracket.  Processing a snapshot of
    one pair changes neither the latest snapshot of any other pair nor the
    history of any other pair. *)
Theorem processSnapshot_other_pair (w : World) (characterId : Z) (bracket : string)
  (data : PvPBracketData) (characterId' : Z) (bracket' : string) :
  characterId' <> characterId \/ bracket' <> bracket ->
  bracket' <> "" ->
  let w' := snd (processSnapshot characterId bracket data w) in
  getLatestSnapshot characterId' bracket' w'
  = (fst (getLatestSnapshot characterId' bracket' w), w')
  /\ getRatingChanges characterId' (Some bracket') w'
     = (fst (getRatingChanges characterId' (Some bracket') w), w').
Proof.
  intros Hpair Hb. cbv zeta.
  unfold getLatestSnapshot, getRatingChanges, query. simpl.
  assert (Hother : (characterId =? characterId') && (bracket =? bracket')%string
                   = false).
  { apply andb_false_iff. destruct Hpair as [Hc|Hb'].
    - left. apply Z.eqb_neq. congruence.
    - right. apply String.eqb_neq. congruence. }
  destruct (processSnapshot_effect w characterId bracket data)
    as (_ & _ & [Hsame | (_ & Hsnaps & Hledger)]).
  - rewrite Hsame. split; reflexivity.
  - assert (Hlatest : select_latest_snapshot characterId' bracket'
                        (db (snd (processSnapshot characterId bracket data w)))
                      = select_latest_snapshot characterId' bracket' (db w)).
    { unfold select_latest_snapshot. rewrite Hsnaps, filter_snoc_false;
        [reflexivity | exact Hother]. }
    assert (Hhistory : select_rating_changes characterId' (Some bracket')
                         (db (snd (processSnapshot characterId bracket data w)))
                       = select_rating_changes characterId' (Some bracket') (db w)).
    { unfold select_rating_changes.
      destruct Hledger as [-> | (last & _ & ->)]; [reflexivity|].
      rewrite filter_snoc_false; [reflexivity|].
      unfold change_matches. rewrite (bracket_given_nonempty _ Hb). exact Hother. }
    rewrite Hlatest, Hhistory. split; reflexivity.
Qed.

Lemma processSnapshot_other_pair_witness :
  let w := second_seen every_five_minutes in
  let w' := snd (processSnapshot 1 "blitz-priest-shadow"
                   (bracket_data 1400 5 3 2) w) in
  (1 <> 1 \/ "shuffle-priest-shadow" <> "blitz-priest-shadow")
  /\ "shuffle-priest-shadow" <> ""
  /\ getLatestSnapshot 1 "shuffle-priest-shadow" w'
     = (fst (getLatestSnapshot 1 "shuffle-priest-shadow" w), w')
  /\ getRatingChanges 1 (Some "shuffle-priest-shadow") w'
     = (fst (getRatingChanges 1 (Some "shuffle-priest-shadow") w), w').
Proof.
  intros w w'.
  assert (Hpair : 1 <> 1 \/ "shuffle-priest-shadow" <> "blitz-priest-shadow")
    by (right; discriminate).
  assert (Hb : "shuffle-priest-shadow" <> "") by discriminate.
  split; [exact Hpair|]. split; [exact Hb|].
  exact (processSnapshot_other_pair w 1 "blitz-priest-shadow"
           (bracket_data 1400 5 3 2) 1 "shuffle-priest-shadow" Hpair Hb).
Defined.

(** ** What the detector looks at *)

(** X13: the weekly counters are stored but play no part in the detection:
    two fetches with the same rating and the same season counters give the
    same answer and the same ledger, whatever their weekly counters. *)
Theorem processSnapshot_ignores_weekly (w : World) (characterId : Z)
  (bracket : string) (data data' : PvPBracketData) :
  rating data = rating data' ->
  season_match_statistics data = season_match_statistics data' ->
  fst (processSnapshot characterId bracket data w)
  = fst (processSnapshot characterId bracket data' w)
  /\ rating_changes (db (snd (processSnapshot characterId bracket data w)))
     = rating_changes (db (snd (processSnapshot characterId bracket data' w))).
Proof.
  intros Hrating Hseason.
  destruct (fk_holds (db w) characterId) eqn:Hfk.
  - destruct (processSnapshot_cases w characterId bracket data Hfk)
      as (r & w1 & Hrun & _ & _ & _ & _ & Hcase).
    destruct (processSnapshot_cases w characterId bracket data' Hfk)
      as (r' & w1' & Hrun' & _ & _ & _ & _ & Hcase').
    rewrite Hrun, Hrun'. simpl.
    unfold delta_row in Hcase, Hcase'.
    rewrite <- Hrating, <- Hseason in Hcase'.
    destruct (Sql.get (select_latest_snapshot characterId bracket (db w)))
      as [last|].
    + destruct (0 <? played (season_match_statistics data) - season_played last);
        destruct Hcase as (-> & -> & _); destruct Hcase' as (-> & -> & _);
        split; reflexivity.
    + destruct Hcase as (-> & -> & _); destruct Hcase' as (-> & -> & _).
      split; reflexivity.
  - run_program. rewrite Hfk. simpl. split; reflexivity.
Qed.

Lemma processSnapshot_ignores_weekly_witness :
  let w := first_seen every_five_minutes in
  let data := bracket_data 1516 12 7 5 in
  let data' :=
    {| rating := 1516;
       season_match_statistics := {| played := 12; won := 7; lost := 5 |};
       weekly_match_statistics := {| played := 0; won := 0; lost := 0 |} |} in
  rating data = rating data'
  /\ season_match_statistics data = season_match_statistics data'
  /\ fst (processSnapshot 1 "shuffle-priest-shadow" data w)
     = fst (processSnapshot 1 "shuffle-priest-shadow" data' w)
  /\ rating_changes (db (snd (processSnapshot 1 "shuffle-priest-shadow" data w)))
     = rating_changes (db (snd (processSnapshot 1 "shuffle-priest-shadow" data' w))).
Proof.
  intros w data data'.
  split; [reflexivity|]. split; [reflexivity|].
  exact (processSnapshot_ignores_weekly w 1 "shuffle-priest-shadow" data data'
           eq_refl eq_refl).
Defined.

(** ** Storage errors *)

(** X14: with the foreign keys enforced, [processSnapshot] for an
    identifier that is not in the characters table throws the constraint
    error of the snapshot insert; nothing is stored and nothing is logged. *)
Theorem processSnapshot_rejects_unknown_character (w : World) (characterId : Z)
  (bracket : string) (data : PvPBracketData) :
  foreign_keys (db w) = true ->
  character_known (db w) characterId = false ->
  exists w',
    processSnapshot characterId bracket data w
    = (Throw (SqliteError "FOREIGN KEY constraint failed"), w')
    /\ db w' = db w
    /\ console w' = console w.
Proof.
  intros Hon Hunknown. run_program.
  unfold fk_holds. rewrite Hon, Hunknown. simpl.
  eexists. repeat split.
Qed.

Lemma processSnapshot_rejects_unknown_character_witness :
  let w := registered every_five_minutes in
  foreign_keys (db w) = true
  /\ character_known (db w) 7 = false
  /\ exists w',
      processSnapshot 7 "shuffle-priest-shadow" (bracket_data 1500 10 6 4) w
      = (Throw (SqliteError "FOREIGN KEY constraint failed"), w')
      /\ db w' = db w
      /\ console w' = console w.
Proof.
  intros w. split; [reflexivity|]. split; [reflexivity|].
  exact (processSnapshot_rejects_unknown_character w 7 "shuffle-priest-shadow"
           (bracket_data 1500 10 6 4) eq_refl eq_refl).
Defined.

(** ** The ledger: record then read *)

(** X15: record then read.  [recordRatingChange] on a known character
    stores the row as given, with [rating_change = newRating - oldRating]
    and without looking at the sign of [gamesPlayed]; the history of the
    character then holds that entry besides the entries it held before, in
    timestamp order, and the history of every other character is
    unchanged. *)
Theorem recordRatingChange_then_history (w : World) (characterId : Z)
  (bracket : string) (oldRating newRating gamesPlayed gamesWon gamesLost : Z) :
  fk_holds (db w) characterId = true ->
  let entry :=
    {| rc_timestamp := clock w (ticks w); rc_bracket := bracket;
       old_rating := oldRating; new_rating := newRating;
       rating_change := newRating - oldRating; games_played := gamesPlayed;
       games_won := gamesWon; games_lost := gamesLost |} in
  exists w1 history history',
    recordRatingChange characterId bracket oldRating newRating gamesPlayed
      gamesWon gamesLost w = (Normal tt, w1)
    /\ getRatingChanges characterId None w = (Normal history, w)
    /\ getRatingChanges characterId None w1 = (Normal history', w1)
    /\ Permutation history' (entry :: history)
    /\ StronglySorted (fun a b => rc_timestamp a <= rc_timestamp b) history'
    /\ forall other,
         other <> characterId ->
         fst (getRatingChanges other None w1) = fst (getRatingChanges other None w).
Proof.
  intros Hfk entry.
  unfold recordRatingChange, CURRENT_TIMESTAMP, run_child_insert, run, bind.
  simpl. rewrite Hfk.
  do 3 eexists. split; [reflexivity|]. split; [reflexivity|].
  split; [reflexivity|].
  unfold select_rating_changes. simpl.
  set (new_row := {| change_id := Sql.next_rowid (map change_id (rating_changes (db w)));
                     change_character_id := characterId;
                     change_columns := entry |}).
  assert (Hmine : change_matches characterId None new_row = true)
    by (unfold change_matches; simpl; rewrite Z.eqb_refl; reflexivity).
  split; [|split].
  - rewrite filter_app. simpl. fold entry. fold new_row. rewrite Hmine.
    eapply perm_trans; [apply Permutation_map, order_by_perm|].
    rewrite map_app. simpl.
    eapply perm_trans; [apply Permutation_sym, Permutation_cons_append|].
    apply perm_skip, Permutation_map, Permutation_sym, order_by_perm.
  - apply sorted_columns, order_by_sorted; [apply asc_total | apply asc_trans].
  - intros other Hother. fold entry. fold new_row.
    rewrite filter_snoc_false; [reflexivity|].
    unfold change_matches. simpl.
    replace (characterId =? other) with false; [reflexivity|].
    symmetry. apply Z.eqb_neq. congruence.
Qed.

Lemma recordRatingChange_then_history_witness :
  let w := second_seen every_five_minutes in
  let entry :=
    {| rc_timestamp := clock w (ticks w); rc_bracket := "blitz-priest-shadow";
       old_rating := 1400; new_rating := 1388;
       rating_change := 1388 - 1400; games_played := 2;
       games_won := 0; games_lost := 2 |} in
  fk_holds (db w) 1 = true
  /\ exists w1 history history',
      recordRatingChange 1 "blitz-priest-shadow" 1400 1388 2 0 2 w = (Normal tt, w1)
      /\ getRatingChanges 1 None w = (Normal history, w)
      /\ getRatingChanges 1 None w1 = (Normal history', w1)
      /\ Permutation history' (entry :: history)
      /\ StronglySorted (fun a b => rc_timestamp a <= rc_timestamp b) history'
      /\ forall other,
           other <> 1 ->
           fst (getRatingChanges other None w1) = fst (getRatingChanges other None w).
Proof.
  intros w entry. split; [reflexivity|].
  exact (recordRatingChange_then_history w 1 "blitz-priest-shadow" 1400 1388 2 0 2
           eq_refl).
Defined.

(** ** The hour buckets of [showStats] *)

Section HourBuckets.

Context (getHours : timestamp -> Z).

Lemma bucket_lookup_add (h hour : Z) (c : RatingChange) (o : list (Z * HourStats)) :
  bucket_lookup h (bucket_add hour c o)
  = if hour =? h
    then Some (add_change
                 (match bucket_lookup h o with Some s => s | None => no_stats end) c)
    else bucket_lookup h o.
Proof.
  induction o as [|[k s] o IH]; simpl.
  - destruct (hour =? h); reflexivity.
  - destruct (k =? hour) eqn:Hk; simpl.
    + apply Z.eqb_eq in Hk. subst k. destruct (hour =? h); reflexivity.
    + destruct (k =? h) eqn:Hkh.
      * apply Z.eqb_eq in Hkh. subst k.
        rewrite Z.eqb_sym, Hk. reflexivity.
      * exact IH.
Qed.

Lemma bucket_add_keys (hour : Z) (c : RatingChange) (o : list (Z * HourStats)) :
  map fst (bucket_add hour c o)
  = if existsb (Z.eqb hour) (map fst o) then map fst o else map fst o ++ [hour].
Proof.
  induction o as [|[k s] o IH]; simpl; [reflexivity|].
  rewrite (Z.eqb_sym hour k).
  destruct (k =? hour); simpl; [reflexivity|].
  rewrite IH. destruct (existsb (Z.eqb hour) (map fst o)); reflexivity.
Qed.

Lemma bucket_add_NoDup (hour : Z) (c : RatingChange) (o : list (Z * HourStats)) :
  NoDup (map fst o) -> NoDup (map fst (bucket_add hour c o)).
Proof.
  intros Hnd. rewrite bucket_add_keys.
  destruct (existsb (Z.eqb hour) (map fst o)) eqn:Hex; [exact Hnd|].
  apply NoDup_app; [exact Hnd | repeat constructor; intros []|].
  intros k Hk [<-|[]].
  assert (existsb (Z.eqb hour) (map fst o) = true)
    by (apply existsb_exists; exists hour; split; [exact Hk | apply Z.eqb_refl]).
  congruence.
Qed.

Lemma hourlyStats_NoDup_from (changes : list RatingChange) :
  forall o,
    NoDup (map fst o) ->
    NoDup (map fst (fold_left
                      (fun o c => bucket_add (getHours (rc_timestamp c)) c o)
                      changes o)).
Proof.
  induction changes as [|c changes IH]; simpl; intros o Ho; [exact Ho|].
  apply IH, bucket_add_NoDup, Ho.
Qed.

(** What the bucket of hour [h] holds after the loop went through
    [changes], starting from the bucket [start]. *)
Lemma bucket_lookup_fold (h : Z) (changes : list RatingChange) :
  forall o,
    bucket_lookup h (fold_left
                       (fun o c => bucket_add (getHours (rc_timestamp c)) c o)
                       changes o)
    = match changes_at getHours h changes with
      | [] => bucket_lookup h o
      | l => Some (fold_left add_change l
                     (match bucket_lookup h o with Some s => s | None => no_stats end))
      end.
Proof.
  unfold changes_at.
  induction changes as [|c changes IH]; simpl; intros o; [reflexivity|].
  rewrite IH, bucket_lookup_add.
  destruct (getHours (rc_timestamp c) =? h); simpl.
  - destruct (filter _ changes); reflexivity.
  - reflexivity.
Qed.

Lemma In_bucket_lookup (h : Z) (s : HourStats) (o : list (Z * HourStats)) :
  NoDup (map fst o) -> (In (h, s) o <-> bucket_lookup h o = Some s).
Proof.
  induction o as [|[k t] o IH]; simpl; intros Hnd.
  - split; [intros [] | discriminate].
  - inversion Hnd as [|? ? Hk Ho]; subst.
    destruct (k =? h) eqn:Hkh.
    + apply Z.eqb_eq in Hkh. subst k. split.
      * intros [Heq|Hin]; [congruence|].
        exfalso. apply Hk. change h with (fst (h, s)). apply in_map, Hin.
      * intros Heq. left. congruence.
    + apply Z.eqb_neq in Hkh. rewrite <- (IH Ho). split.
      * intros [Heq|Hin]; [congruence | exact Hin].
      * intros Hin. right. exact Hin.
Qed.

Lemma sorted_NoDup_strict (l : list Z) :
  StronglySorted Z.le l -> NoDup l -> StronglySorted Z.lt l.
Proof.
  induction 1 as [|x l Hl IH Hx]; intros Hnd; constructor;
    inversion Hnd as [|? ? Hnx Hndl]; subst.
  - apply IH, Hndl.
  - rewrite Forall_forall in Hx |- *. intros y Hy.
    specialize (Hx y Hy). assert (x <> y) by congruence. lia.
Qed.

Lemma sortedHours_keys_sorted (o : list (Z * HourStats)) :
  StronglySorted Z.le (map fst (Sql.order_by (Sql.asc fst) o)).
Proof.
  pose proof (order_by_sorted (Sql.asc fst) (asc_total fst) (asc_trans fst) o)
    as Hsorted.
  unfold Sql.sorted_by in Hsorted.
  induction Hsorted as [|x l Hl IH Hx]; simpl; constructor; [exact IH|].
  apply Forall_map. eapply Forall_impl; [|exact Hx].
  intros y Hy. unfold Sql.asc in Hy. lia.
Qed.

(** X16: the hour buckets [showStats] prints come in strictly increasing
    hour order, one bucket per hour; an hour has a bucket exactly when some
    change of the history falls in it, and the bucket holds the sums of
    games played, rating change, games won and games lost over the changes
    of that hour. *)
Theorem sortedHours_buckets (changes : list RatingChange) :
  StronglySorted Z.lt (map fst (sortedHours getHours changes))
  /\ forall hour s,
       In (hour, s) (sortedHours getHours changes) <->
       (exists c, In c changes /\ getHours (rc_timestamp c) = hour)
       /\ s = totals (changes_at getHours hour changes).
Proof.
  assert (Hnd : NoDup (map fst (hourlyStats getHours changes)))
    by (apply hourlyStats_NoDup_from; constructor).
  assert (Hperm : Permutation (sortedHours getHours changes)
                    (hourlyStats getHours changes))
    by apply order_by_perm.
  split.
  - apply sorted_NoDup_strict; [apply sortedHours_keys_sorted|].
    eapply Permutation_NoDup; [|exact Hnd].
    apply Permutation_map, Permutation_sym, Hperm.
  - intros hour s.
    assert (Hin : In (hour, s) (sortedHours getHours changes)
                  <-> In (hour, s) (hourlyStats getHours changes)).
    { split; apply Permutation_in; [exact Hperm | apply Permutation_sym, Hperm]. }
    rewrite Hin, (In_bucket_lookup _ _ _ Hnd).
    unfold hourlyStats. rewrite bucket_lookup_fold. simpl. unfold totals.
    destruct (changes_at getHours hour changes) as [|c l] eqn:Hat.
    + split; [discriminate|]. intros [(c & Hc & Hh) _].
      assert (In c (changes_at getHours hour changes))
        by (apply filter_In; split; [exact Hc | apply Z.eqb_eq, Hh]).
      rewrite Hat in H. contradiction.
    + split.
      * intros Heq. split; [|injection Heq as <-; reflexivity].
        assert (Hc : In c (changes_at getHours hour changes))
          by (rewrite Hat; left; reflexivity).
        apply filter_In in Hc. destruct Hc as [Hc Hh].
        exists c. split; [exact Hc | apply Z.eqb_eq, Hh].
      * intros [_ ->]. reflexivity.
Qed.

Lemma Zsum_bucket_add (f : HourStats -> Z) (g : RatingChange -> Z) (hour : Z)
  (c : RatingChange) (o : list (Z * HourStats)) :
  f no_stats = 0 ->
  (forall s, f (add_change s c) = f s + g c) ->
  Zsum (map (fun e => f (snd e)) (bucket_add hour c o))
  = Zsum (map (fun e => f (snd e)) o) + g c.
Proof.
  intros H0 Hadd. unfold Zsum.
  induction o as [|[k s] o IH]; simpl.
  - rewrite Hadd, H0. lia.
  - destruct (k =? hour); simpl; [rewrite Hadd | rewrite IH]; lia.
Qed.

Lemma Zsum_hourlyStats (f : HourStats -> Z) (g : RatingChange -> Z)
  (changes : list RatingChange) :
  f no_stats = 0 ->
  (forall s c, f (add_change s c) = f s + g c) ->
  forall o,
    Zsum (map (fun e => f (snd e))
            (fold_left (fun o c => bucket_add (getHours (rc_timestamp c)) c o)
               changes o))
    = Zsum (map (fun e => f (snd e)) o) + Zsum (map g changes).
Proof.
  intros H0 Hadd.
  induction changes as [|c changes IH]; simpl; intros o; [unfold Zsum; simpl; lia|].
  rewrite IH, (Zsum_bucket_add f g); [|exact H0 | intros s; apply Hadd].
  unfold Zsum. simpl. lia.
Qed.

Lemma Zsum_perm (l l' : list Z) : Permutation l l' -> Zsum l = Zsum l'.
Proof.
  unfold Zsum. induction 1; simpl; lia.
Qed.

(** X17: nothing is lost or counted twice by the bucketing: summed over
    the printed buckets, the games, rating changes, wins and losses are
    those of the whole history. *)
Theorem sortedHours_totals (changes : list RatingChange) :
  let buckets := map snd (sortedHours getHours changes) in
  Zsum (map hs_games buckets) = Zsum (map games_played changes)
  /\ Zsum (map hs_ratingChange buckets) = Zsum (map rating_change changes)
  /\ Zsum (map hs_wins buckets) = Zsum (map games_won changes)
  /\ Zsum (map hs_losses buckets) = Zsum (map games_lost changes).
Proof.
  cbv zeta.
  assert (Hsum : forall (f : HourStats -> Z) (g : RatingChange -> Z),
            f no_stats = 0 ->
            (forall s c, f (add_change s c) = f s + g c) ->
            Zsum (map f (map snd (sortedHours getHours changes)))
            = Zsum (map g changes)).
  { intros f g H0 Hadd. rewrite map_map.
    rewrite (Zsum_perm _ (map (fun e => f (snd e)) (hourlyStats getHours changes)))
      by (apply Permutation_map, order_by_perm).
    unfold hourlyStats. rewrite (Zsum_hourlyStats f g changes H0 Hadd).
    unfold Zsum. simpl. lia. }
  repeat split; apply Hsum; reflexivity.
Qed.

End HourBuckets.

(** ** [showStats] *)



(** The statistics of the tracker after both brackets were tracked for a
    while, with stamps five minutes apart starting at midnight. *)
Example showStats_run :
  fst (showStats hour_of_day two_brackets)
  = Normal
      [("shuffle-priest-shadow",
        History
          [{| rc_timestamp := 600; rc_bracket := "shuffle-priest-shadow";
              old_rating := 1500; new_rating := 1516; rating_change := 16;
              games_played := 2; games_won := 1; games_lost := 1 |};
           {| rc_timestamp := 2100; rc_bracket := "shuffle-priest-shadow";
              old_rating := 1516; new_rating := 1520; rating_change := 4;
              games_played := 1; games_won := 1; games_lost := 0 |}]
          [(0, {| hs_games := 3; hs_ratingChange := 20; hs_wins := 2;
                  hs_losses := 1 |})]);
       ("blitz-priest-shadow",
        History
          [{| rc_timestamp := 1500; rc_bracket := "blitz-priest-shadow";
              old_rating := 1400; new_rating := 1388; rating_change := -12;
              games_played := 2; games_won := 0; games_lost := 2 |}]
          [(0, {| hs_games := 2; hs_ratingChange := -12; hs_wins := 0;
                  hs_losses := 2 |})])].
Proof. vm_compute. reflexivity. Qed.

(** ** Stamps that are not later than the latest one *)

(** The first row of greatest key is unique. *)
Lemma first_greatest_unique {A} (key : A -> Z) (l1 l2 a b : list A) (x s : A) :
  l1 ++ x :: l2 = a ++ s :: b ->
  (forall y, In y l1 -> key y < key x) ->
  (forall y, In y l2 -> key y <= key x) ->
  (forall y, In y a -> key y < key s) ->
  (forall y, In y b -> key y <= key s) ->
  x = s.
Proof.
  revert a. induction l1 as [|y l1 IH]; intros [|z a] Heq H1 H2 Ha Hb;
    simpl in Heq; injection Heq as Hhead Htail.
  - exact Hhead.
  - subst z.
    assert (key x < key s) by (apply Ha; left; reflexivity).
    assert (key s <= key x)
      by (apply H2; rewrite Htail; apply in_or_app; right; left; reflexivity).
    lia.
  - subst y.
    assert (key s < key x) by (apply H1; left; reflexivity).
    assert (key x <= key s)
      by (apply Hb; rewrite <- Htail; apply in_or_app; right; left; reflexivity).
    lia.
  - apply (IH a Htail); try assumption.
    + intros y0 Hy0. apply H1. right. exact Hy0.
    + intros y0 Hy0. apply Ha. right. exact Hy0.
Qed.

(** X19: the latest snapshot is chosen by stamp, not by insertion.  A
    snapshot saved while the clock does not read later than the stamp of
    the current latest snapshot of the pair does not become the latest:
    [getLatestSnapshot] keeps returning the row it returned before. *)
Theorem stale_stamp_keeps_latest (w : World) (characterId : Z) (bracket : string)
  (data : PvPBracketData) (s : SnapshotRow) :
  fk_holds (db w) characterId = true ->
  getLatestSnapshot characterId bracket w = (Normal (Some s), w) ->
  clock w (ticks w) <= snap_timestamp s ->
  exists w1,
    saveSnapshot characterId bracket data w = (Normal tt, w1)
    /\ pvp_snapshots (db w1)
       = pvp_snapshots (db w) ++ [saved_snapshot w characterId bracket data]
    /\ getLatestSnapshot characterId bracket w1 = (Normal (Some s), w1).
Proof.
  intros Hfk Hlatest Hstale.
  unfold saveSnapshot, CURRENT_TIMESTAMP, run_child_insert, run, bind. simpl.
  rewrite Hfk.
  eexists. split; [reflexivity|]. split; [reflexivity|].
  destruct (getLatestSnapshot_greatest _ _ _ _ Hlatest)
    as (older & rest & Hsplit & Holder & Hrest).
  match goal with |- getLatestSnapshot _ _ ?w0 = _ => set (w1 := w0) end.
  assert (Hrows : filter (snapshot_of characterId bracket) (pvp_snapshots (db w1))
                  = older ++ s :: (rest ++ [saved_snapshot w characterId bracket data])).
  { unfold w1. simpl. rewrite filter_app, Hsplit. simpl.
    pose proof (fresh_pair_snapshot w characterId bracket data) as Hp.
    unfold saved_snapshot in Hp. rewrite Hp.
    rewrite <- app_assoc. reflexivity. }
  destruct (Sql.get (select_latest_snapshot characterId bracket (db w1)))
    as [x|] eqn:Hget.
  - assert (Hx : getLatestSnapshot characterId bracket w1 = (Normal (Some x), w1))
      by (rewrite getLatestSnapshot_reads, Hget; reflexivity).
    rewrite Hx. do 3 f_equal.
    destruct (getLatestSnapshot_greatest _ _ _ _ Hx)
      as (older' & rest' & Hsplit' & Holder' & Hrest').
    rewrite Hrows in Hsplit'.
    apply (first_greatest_unique snap_timestamp older' rest' older
             (rest ++ [saved_snapshot w characterId bracket data]) x s);
      try assumption; [symmetry; exact Hsplit'|].
    intros y Hy. apply in_app_or in Hy. destruct Hy as [Hy|[<-|[]]].
    + exact (Hrest y Hy).
    + exact Hstale.
  - assert (Hn : getLatestSnapshot characterId bracket w1 = (Normal None, w1))
      by (rewrite getLatestSnapshot_reads, Hget; reflexivity).
    apply getLatestSnapshot_absent in Hn. rewrite Hrows in Hn.
    destruct older; discriminate.
Qed.

Lemma stale_stamp_keeps_latest_witness :
  let w := first_seen same_second in
  let data := bracket_data 1516 12 7 5 in
  let s := first_snapshot same_second in
  fk_holds (db w) 1 = true
  /\ getLatestSnapshot 1 "shuffle-priest-shadow" w = (Normal (Some s), w)
  /\ clock w (ticks w) <= snap_timestamp s
  /\ exists w1,
      saveSnapshot 1 "shuffle-priest-shadow" data w = (Normal tt, w1)
      /\ pvp_snapshots (db w1)
         = pvp_snapshots (db w) ++
           [saved_snapshot w 1 "shuffle-priest-shadow" data]
      /\ getLatestSnapshot 1 "shuffle-priest-shadow" w1 = (Normal (Some s), w1).
Proof.
  intros w data s.
  assert (Hstale : clock w (ticks w) <= snap_timestamp s)
    by (vm_compute; discriminate).
  split; [reflexivity|]. split; [reflexivity|]. split; [exact Hstale|].
  exact (stale_stamp_keeps_latest w 1 "shuffle-priest-shadow" data s
           eq_refl eq_refl Hstale).
Defined.

(** ** The properties above on the sample data *)

Lemma getLatestSnapshot_selects_witness :
  let w := two_brackets in
  exists found,
    getLatestSnapshot 1 "blitz-priest-shadow" w = (Normal found, w)
    /\ match found with
       | None =>
           forall s, In s (pvp_snapshots (db w)) ->
                     snapshot_of 1 "blitz-priest-shadow" s = false
       | Some s =>
           In s (pvp_snapshots (db w))
           /\ snap_character_id s = 1
           /\ snap_bracket s = "blitz-priest-shadow"
           /\ forall y, In y (pvp_snapshots (db w)) ->
                        snapshot_of 1 "blitz-priest-shadow" y = true ->
                        snap_timestamp y <= snap_timestamp s
       end.
Proof.
  intros w. exact (getLatestSnapshot_selects w 1 "blitz-priest-shadow").
Defined.

Lemma sortedHours_buckets_witness :
  StronglySorted Z.lt (map fst (sortedHours hour_of_day
                                  (select_rating_changes 1 None (db two_brackets))))
  /\ forall hour s,
       In (hour, s) (sortedHours hour_of_day
                       (select_rating_changes 1 None (db two_brackets))) <->
       (exists c, In c (select_rating_changes 1 None (db two_brackets))
                  /\ hour_of_day (rc_timestamp c) = hour)
       /\ s = totals (changes_at hour_of_day hour
                        (select_rating_changes 1 None (db two_brackets))).
Proof.
  exact (sortedHours_buckets hour_of_day
           (select_rating_changes 1 None (db two_brackets))).
Defined.
